(** * secvarctl: backend discovery and command dispatch

    A shallow embedding of [src/secvarctl.c]: the backend registry
    ([backends]), the registry lookup ([is_known_backend]), the platform
    probe ([get_backend]) and the entry point ([main]) with its flag
    parsing loop, its backend fallback and its dispatch loop.

    Conventions of the model.
    - A C string is a [string]; the characters after the first NUL (if any)
      are not part of it, and the end of the [string] reads as the
      terminator.  [cstr s] is the text a C function sees in [s].
    - [int] and [size_t] values are [Z] and [nat]; no arithmetic of the
      source can overflow (only counters over argv and the registry).
    - Output and calls are recorded as a list of [event]s;
      undefined behaviour (an access past the end of [backends], a NULL
      dereference) is the result [None] of the monad [M]. *)

From Stdlib Require Import List String Ascii ZArith Lia Bool.
Import ListNotations.
Open Scope string_scope.
Open Scope list_scope.
Open Scope Z_scope.

(** ** C strings *)

Module CString.

(** The [unsigned char] at the front of a C string; the end of the string
    reads as the terminator. *)
Definition code (a : ascii) : Z := Z.of_N (N_of_ascii a).

Definition char_at (s : string) : Z :=
  match s with
  | EmptyString => 0
  | String a _ => code a
  end.

Definition tail (s : string) : string :=
  match s with
  | EmptyString => EmptyString
  | String _ r => r
  end.

(** The contents of a C string: everything before the first NUL. *)
Fixpoint cstr (s : string) : string :=
  match s with
  | EmptyString => EmptyString
  | String a r => if code a =? 0 then EmptyString else String a (cstr r)
  end.

Fixpoint strlen (s : string) : nat :=
  match s with
  | EmptyString => O
  | String a r => if code a =? 0 then O else S (strlen r)
  end.

(** [strcmp]: difference of the first pair of differing characters, [0]
    when both strings end together. *)
Fixpoint strcmp (s1 s2 : string) : Z :=
  match s1 with
  | EmptyString => 0 - char_at s2
  | String a r1 =>
      if code a =? char_at s2
      then (if code a =? 0 then 0 else strcmp r1 (tail s2))
      else code a - char_at s2
  end.

(** [strncmp]: as [strcmp], over at most [n] characters. *)
Fixpoint strncmp (s1 s2 : string) (n : nat) : Z :=
  match n with
  | O => 0
  | S n' =>
      if char_at s1 =? char_at s2
      then (if char_at s1 =? 0 then 0
            else strncmp (tail s1) (tail s2) n')
      else char_at s1 - char_at s2
  end.

(** Specification-side notions the comparisons are measured against. *)
Definition take (n : nat) (s : string) : string := substring 0 n s.

Definition begins_with (candidate name : string) : Prop :=
  exists rest, cstr candidate = (cstr name ++ rest)%string.

Definition same_upto (n : nat) (s1 s2 : string) : Prop :=
  take n (cstr s1) = take n (cstr s2).

End CString.
Import CString.

(** ** Data model ([secvarctl.h], [prlog.h]) *)

(** The log levels [main] uses. *)
Inductive loglevel := PR_ERR | PR_WARNING | PR_NOTICE | PR_DEBUG.

(** [struct command]: a name and a handler [int (*func)(int, char **)].
    The handler is opaque: the model knows only the status it returns for
    the [argc] and [argv] it is given. *)
Record command := {
  cmd_name : string;
  func : Z -> list string -> Z
}.

(** [struct backend]: [countCmds] is the length of [commands]. *)
Record backend := {
  name : string;
  commands : list command
}.

(** The text of each [prlog] call of the file, with its [%s] argument. *)
Inductive message :=
| MFoundBackend (backend_name : string)
| MNoSecvarSupport
| MNoData (path : string)
| MUnknownFormat (path : string)
| MUnknownMode (token : string)
| MModeNeeded
| MCommandsNotFound
| MUnsupportedBackend (backend_name : string)
| MModeNotEnabled (mode : string)
| MUnknownCommand (subcommand : string).

(** What a run does, in order: the texts printed by [usage], [help] and
    [prlog], the calls to [is_file], [get_data_from_file] and
    [is_known_backend], and the calls of command handlers. *)
Inductive event :=
| EUsage
| EHelp
| EPrlog (lvl : loglevel) (msg : message)
| EIsFile (path : string)
| EGetData (path : string) (max_bytes : nat)
| ELookup (buff : string)
| ECall (cmd : string) (argc : Z) (argv : list string).

(** ** The monad of runs: a trace, and a value unless the run hit
    undefined behaviour. *)

Definition M (A : Type) : Type := (list event * option A)%type.

Definition ret {A} (a : A) : M A := ([], Some a).

Definition fault {A} : M A := ([], None).

Definition emit (e : event) : M unit := ([e], Some tt).

Definition bind {A B} (m : M A) (f : A -> M B) : M B :=
  match snd m with
  | None => (fst m, None)
  | Some a => (fst m ++ fst (f a), snd (f a))
  end.

Declare Scope run_scope.
Delimit Scope run_scope with run.
Notation "x <- m ;; k" := (bind m (fun x => k))
  (at level 100, m at next level, right associativity) : run_scope.
Notation "m ;;; k" := (bind m (fun _ => k))
  (at level 100, right associativity) : run_scope.
Open Scope run_scope.

Definition trace {A} (m : M A) : list event := fst m.
Definition result {A} (m : M A) : option A := snd m.

(** [usage ()] prints the usage text; [help ()] prints the help text and
    then calls [usage ()]. *)
Definition usage : M unit := emit EUsage.
Definition help : M unit := emit EHelp ;;; usage.
Definition prlog (lvl : loglevel) (msg : message) : M unit :=
  emit (EPrlog lvl msg).

Definition HOST_BACKEND : string := "ibm,edk2-compat-v1".
Definition GUEST_BACKEND : string := "ibm,plpks-sb-v1".

Definition secvar_format_location : string := "/sys/firmware/secvar/format".

(** The array [backends] as the preprocessor builds it: the host entry
    when [SECVAR_HOST_BACKEND] is defined, then the guest entry when
    [SECVAR_GUEST_BACKEND] is. The two command tables come from the backend
    modules. *)
Definition registry (host guest : bool)
    (edk2_compat_command_table guest_command_table : list command)
    : list backend :=
  (if host
   then [ {| name := "ibm,edk2-compat-v1";
             commands := edk2_compat_command_table |} ]
   else [])
  ++
  (if guest
   then [ {| name := "ibm,plpks-sb-v1";
             commands := guest_command_table |} ]
   else []).

(** The variables [main] sets while it reads the flags: the global
    [verbose], and the locals [secvarctl_mode] and [backend_name] (NULL
    until a mode is given). *)
Record flags := {
  verbose : loglevel;
  secvarctl_mode : Z;
  backend_name : option string
}.

(** How the flag loop is left: by a [return] of [main], or by falling out
    of the loop with the tokens still to be read. *)
Inductive parsed :=
| Return (rc : Z)
| Proceed (st : flags) (argv : list string).

(** ** Notions of the specification *)

(** The leading flags the parser reads without leaving [main]: [-v] and
    [--verbose], and [-m] or [--mode] followed by [host] or [guest].
    [consumes st pre st'] says that the tokens [pre] are such flags and
    change the variables [st] into [st']. *)
Definition is_verbose_flag (tok : string) : Prop :=
  cstr tok = "-v" \/ cstr tok = "--verbose".

Definition is_mode_flag (tok : string) : Prop :=
  cstr tok = "-m" \/ cstr tok = "--mode".

Inductive consumes : flags -> list string -> flags -> Prop :=
| consumes_nil st :
    consumes st [] st
| consumes_verbose st tok rest st' :
    is_verbose_flag tok ->
    consumes {| verbose := PR_DEBUG;
                secvarctl_mode := secvarctl_mode st;
                backend_name := backend_name st |} rest st' ->
    consumes st (tok :: rest) st'
| consumes_guest st tok arg rest st' :
    is_mode_flag tok -> cstr arg = "guest" ->
    consumes {| verbose := verbose st;
                secvarctl_mode := 1;
                backend_name := Some GUEST_BACKEND |} rest st' ->
    consumes st (tok :: arg :: rest) st'
| consumes_host st tok arg rest st' :
    is_mode_flag tok -> cstr arg = "host" ->
    consumes {| verbose := verbose st;
                secvarctl_mode := 0;
                backend_name := Some HOST_BACKEND |} rest st' ->
    consumes st (tok :: arg :: rest) st'.

(** The mode and the backend name are set together. *)
Definition mode_invariant (st : flags) : Prop :=
  (secvarctl_mode st = -1 /\ backend_name st = None) \/
  (secvarctl_mode st = 0 /\ backend_name st = Some HOST_BACKEND) \/
  (secvarctl_mode st = 1 /\ backend_name st = Some GUEST_BACKEND).

(** The flags the parser knows. *)
Definition recognized_flag (tok : string) : Prop :=
  In (cstr tok)
     ["--usage"; "--help"; "-h"; "-m"; "--mode"; "-v"; "--verbose"].

(** A token that opens with ['-']. *)
Definition flag_token (tok : string) : Prop := char_at tok = code "-".

(** The length of the longest registered backend name. *)
Definition longest_name (bs : list backend) : nat :=
  list_max (map (fun b => strlen (name b)) bs).

(** [b] is the first entry of [bs] whose name the candidate begins with. *)
Definition first_prefix_match (bs : list backend) (candidate : string)
    (b : backend) : Prop :=
  exists before after,
    bs = before ++ b :: after /\
    begins_with candidate (name b) /\
    Forall (fun b' => ~ begins_with candidate (name b')) before.

(** [c] is the first entry of [cmds] that agrees with the subcommand over
    32 characters. *)
Definition first_command_match (cmds : list command) (subcommand : string)
    (c : command) (after : list command) : Prop :=
  exists before,
    cmds = before ++ c :: after /\
    same_upto 32 subcommand (cmd_name c) /\
    Forall (fun c' => ~ same_upto 32 subcommand (cmd_name c')) before.

(** The number of handler calls in a trace. *)
Definition is_call (e : event) : bool :=
  match e with
  | ECall _ _ _ => true
  | _ => false
  end.

Definition calls (t : list event) : nat := List.length (filter is_call t).

(** The reading of the handler status that the specification gives for
    the dispatcher: a run that called a handler prints neither the
    unknown-command error nor the usage text. *)
Definition silent_after_handler (t : list event) : Prop :=
  calls t <> O ->
  ~ In EUsage t /\ forall sub, ~ In (EPrlog PR_ERR (MUnknownCommand sub)) t.

(** What [main] prints when it leaves the flag loop by a [return]: the
    usage text, the help and usage texts, or a warning on the mode followed
    by the usage text. *)
Definition exit_report (t : list event) : Prop :=
  t = [EUsage] \/
  t = [EHelp; EUsage] \/
  (exists arg, t = [EPrlog PR_WARNING (MUnknownMode arg); EUsage]) \/
  t = [EPrlog PR_WARNING MModeNeeded; EUsage].

(** The number of tests for the status file and of reads of it in a
    trace. *)
Definition is_file_check (e : event) : bool :=
  match e with
  | EIsFile _ => true
  | _ => false
  end.

Definition is_file_read (e : event) : bool :=
  match e with
  | EGetData _ _ => true
  | _ => false
  end.

Definition occurrences (p : event -> bool) (t : list event) : nat :=
  List.length (filter p t).

(** ** A sample configuration

    Two command tables, a platform whose status file names the host
    backend, and one that has no such file. *)
Definition sample_read : command :=
  {| cmd_name := "read"; func := fun _ _ => 7 |}.

(** A handler that fails with the status [2]; the sample runs below take
    [2] as the value of [UNKNOWN_COMMAND]. *)
Definition sample_write : command :=
  {| cmd_name := "write"; func := fun _ _ => 2 |}.

Definition sample_host_table : list command := [sample_read; sample_write].
Definition sample_host : backend :=
  {| name := "ibm,edk2-compat-v1"; commands := sample_host_table |}.
Definition sample_guest_table : list command := [sample_read].
Definition sample_guest : backend :=
  {| name := "ibm,plpks-sb-v1"; commands := sample_guest_table |}.

Definition sample_backends : list backend :=
  registry true true sample_host_table sample_guest_table.

Definition host_only_backends : list backend :=
  registry true false sample_host_table sample_guest_table.

(** The variables after [-m host] and after [-m guest]. *)
Definition host_flags : flags :=
  {| verbose := PR_WARNING; secvarctl_mode := 0;
     backend_name := Some HOST_BACKEND |}.
Definition guest_flags : flags :=
  {| verbose := PR_WARNING; secvarctl_mode := 1;
     backend_name := Some GUEST_BACKEND |}.
Definition verbose_flags : flags :=
  {| verbose := PR_DEBUG; secvarctl_mode := -1; backend_name := None |}.

Definition file_present : string -> Z := fun _ => 0.
Definition file_absent : string -> Z := fun _ => 1.
Definition reads_host : string -> nat -> option string :=
  fun _ _ => Some "ibm,edk2-compat-v1".
Definition reads_nothing : string -> nat -> option string :=
  fun _ _ => None.
Definition reads_other : string -> nat -> option string :=
  fun _ _ => Some "ibm,unknown".

(** ** The program *)

Section Program.

Set Default Proof Using "Type".

(** Status codes declared in the headers the file includes; the headers
    are not part of the source unit, so the values are left open. *)
Variables SUCCESS ARG_PARSE_FAIL UNKNOWN_COMMAND : Z.
Variables BACKEND_FOUND UNKNOWN_BACKEND : Z.

(** Collaborators declared elsewhere: [is_file] returns [0] for an
    existing file; [get_data_from_file path max_bytes] returns the buffer
    it read, or NULL. The buffer is given as the C string that [strncmp]
    finds in it. *)
Variable is_file : string -> Z.
Variable get_data_from_file : string -> nat -> option string.

(** The static array [backends]. *)
Variable backends : list backend.

(** [is_known_backend]: the loop over [backends], from entry [i] on. The
    result is the returned code and the pointer stored through [backend]
    (which both callers pass in as NULL). *)
Fixpoint known_backend_loop (bs : list backend) (buff : string)
    : M (Z * option backend) :=
  match bs with
  | [] => ret (UNKNOWN_BACKEND, None)
  | b :: bs' =>
      if strncmp buff (name b) (strlen (name b)) =? 0
      then prlog PR_NOTICE (MFoundBackend (name b)) ;;;
           ret (BACKEND_FOUND, Some b)
      else known_backend_loop bs' buff
  end.

Definition is_known_backend (buff : string) : M (Z * option backend) :=
  emit (ELookup buff) ;;;
  known_backend_loop backends buff.

(** The loop of [get_backend] that finds the longest backend name. *)
Definition max_name_loop (bs : list backend) (max_buff_size : nat) : nat :=
  fold_left
    (fun m b => if (m <? strlen (name b))%nat then strlen (name b) else m)
    bs max_buff_size.

(** [get_backend]: NULL is [None]. Reading [backends[0]] of an empty array
    is an access out of bounds. *)
Definition get_backend : M (option backend) :=
  emit (EIsFile secvar_format_location) ;;;
  if negb (is_file secvar_format_location =? 0)
  then prlog PR_WARNING MNoSecvarSupport ;;; ret None
  else
    match nth_error backends 0 with
    | None => fault
    | Some b0 =>
        let max_buff_size := max_name_loop backends (strlen (name b0)) in
        emit (EGetData secvar_format_location max_buff_size) ;;;
        match get_data_from_file secvar_format_location max_buff_size with
        | None =>
            prlog PR_WARNING (MNoData secvar_format_location) ;;; ret None
        | Some buff =>
            r <- is_known_backend buff ;;
            (if fst r =? 0
             then prlog PR_WARNING (MUnknownFormat secvar_format_location)
             else ret tt) ;;;
            ret (snd r)
        end
    end.

(** [main], the flag loop (lines 168-214). [argc] is the length of the
    tokens left: the source decrements it with every step of [argv]. *)
Definition init_flags : flags :=
  {| verbose := PR_WARNING; secvarctl_mode := -1; backend_name := None |}.

Fixpoint parse_flags (st : flags) (argv : list string) : M parsed :=
  match argv with
  | [] => ret (Proceed st [])
  | tok :: rest =>
      if negb (char_at tok =? code "-") then ret (Proceed st argv)
      else if strcmp "--usage" tok =? 0
      then usage ;;; ret (Return SUCCESS)
      else if (strcmp "--help" tok =? 0) || (strcmp "-h" tok =? 0)
      then help ;;; ret (Return SUCCESS)
      else if (strcmp "-m" tok =? 0) || (strcmp "--mode" tok =? 0)
      then
        match rest with
        | arg :: rest' =>
            if strcmp "guest" arg =? 0
            then parse_flags {| verbose := verbose st;
                                secvarctl_mode := 1;
                                backend_name := Some GUEST_BACKEND |} rest'
            else if strcmp "host" arg =? 0
            then parse_flags {| verbose := verbose st;
                                secvarctl_mode := 0;
                                backend_name := Some HOST_BACKEND |} rest'
            else prlog PR_WARNING (MUnknownMode arg) ;;;
                 usage ;;; ret (Return SUCCESS)
        | [] =>
            prlog PR_WARNING MModeNeeded ;;;
            usage ;;; ret (Return SUCCESS)
        end
      else if (strcmp "-v" tok =? 0) || (strcmp "--verbose" tok =? 0)
      then parse_flags {| verbose := PR_DEBUG;
                          secvarctl_mode := secvarctl_mode st;
                          backend_name := backend_name st |} rest
      else usage ;;; ret (Return SUCCESS)
  end.

(** [main], lines 229-245: the probe, then the fallback on the name of the
    requested mode. [None] stands for the [return SUCCESS] of the branch
    that finds the mode disabled. [backend_name] is not NULL here (the mode
    is set); [backend] is dereferenced for the warning. *)
Definition resolve_backend (st : flags) : M (option backend) :=
  probed <- get_backend ;;
  match probed with
  | Some b => ret (Some b)
  | None =>
      match backend_name st with
      | None => fault
      | Some bn =>
          r <- is_known_backend bn ;;
          if negb (fst r =? 0)
          then
            match snd r with
            | Some b =>
                prlog PR_WARNING (MUnsupportedBackend (name b)) ;;;
                ret (Some b)
            | None => fault
            end
          else
            prlog PR_WARNING
              (MModeNotEnabled
                 (if negb (secvarctl_mode st =? 0) then "guest" else "host")) ;;;
            ret None
      end
  end.

(** [main], lines 250-258: the loop over the command table. *)
Fixpoint command_loop (cmds : list command) (subcommand : string)
    (argc : Z) (argv : list string) : M Z :=
  match cmds with
  | [] => ret UNKNOWN_COMMAND
  | c :: cmds' =>
      if strncmp subcommand (cmd_name c) 32 =? 0
      then emit (ECall (cmd_name c) argc argv) ;;;
           ret (func c argc argv)
      else command_loop cmds' subcommand argc argv
  end.

(** [main], lines 247-266. *)
Definition dispatch (b : backend) (subcommand : string)
    (argc : Z) (argv : list string) : M Z :=
  rc <- command_loop (commands b) subcommand argc argv ;;
  (if rc =? UNKNOWN_COMMAND
   then prlog PR_ERR (MUnknownCommand subcommand) ;;; usage
   else ret tt) ;;;
  ret rc.

(** [main]: [argv] is the whole vector, program name first, and [argc] is
    its length. *)
Definition main (argv : list string) : M Z :=
  if Z.of_nat (List.length argv) <? 2
  then usage ;;; ret ARG_PARSE_FAIL
  else
    p <- parse_flags init_flags (List.tl argv) ;;
    match p with
    | Return rc => ret rc
    | Proceed st args =>
        match args with
        | [] =>
            prlog PR_ERR MCommandsNotFound ;;;
            usage ;;; ret ARG_PARSE_FAIL
        | subcommand :: _ =>
            if secvarctl_mode st =? -1
            then usage ;;; ret SUCCESS
            else
              sel <- resolve_backend st ;;
              match sel with
              | None => ret SUCCESS
              | Some b =>
                  dispatch b subcommand (Z.of_nat (List.length args)) args
              end
        end
    end.


(** The two ways out of the flag loop, in the terms of the specification:
    past flags it accepts, up to the end of the vector or to a token that
    does not open with ['-'], with nothing printed; or by a [return]. *)
Definition falls_through (st : flags) (argv : list string) : Prop :=
  exists pre rest st',
    argv = pre ++ rest /\
    consumes st pre st' /\
    parse_flags st argv = ([], Some (Proceed st' rest)) /\
    (rest = [] \/ exists sub args, rest = sub :: args /\ ~ flag_token sub).

Definition exits_early (st : flags) (argv : list string) : Prop :=
  exists t,
    parse_flags st argv = (t, Some (Return SUCCESS)) /\ exit_report t.


(** The ways through [main], in the terms of the specification. [selects]
    says that the flags are read, a mode is set and a subcommand is there,
    so that [main] goes on to choose a backend. *)
Definition selects (argv : list string) (prog : string)
    (pre : list string) (st : flags) (sub : string) (rest : list string)
    : Prop :=
  argv = prog :: pre ++ sub :: rest /\
  consumes init_flags pre st /\
  ~ flag_token sub /\
  secvarctl_mode st <> -1.

Inductive exit_path (argv : list string) : M Z -> Prop :=
| path_no_arguments :
    (List.length argv < 2)%nat ->
    exit_path argv ([EUsage], Some ARG_PARSE_FAIL)
| path_flag_return prog args t :
    argv = prog :: args -> args <> [] -> exit_report t ->
    exit_path argv (t, Some SUCCESS)
| path_no_subcommand prog args st :
    argv = prog :: args -> args <> [] -> consumes init_flags args st ->
    exit_path argv
      ([EPrlog PR_ERR MCommandsNotFound; EUsage], Some ARG_PARSE_FAIL)
| path_no_mode prog pre st sub rest :
    argv = prog :: pre ++ sub :: rest ->
    consumes init_flags pre st -> ~ flag_token sub ->
    secvarctl_mode st = -1 ->
    exit_path argv ([EUsage], Some SUCCESS)
| path_fault prog pre st sub rest ts :
    selects argv prog pre st sub rest ->
    resolve_backend st = (ts, None) ->
    exit_path argv (ts, None)
| path_mode_disabled prog pre st sub rest ts :
    selects argv prog pre st sub rest ->
    resolve_backend st = (ts, Some None) ->
    exit_path argv (ts, Some SUCCESS)
| path_unknown_command prog pre st sub rest ts b :
    selects argv prog pre st sub rest ->
    resolve_backend st = (ts, Some (Some b)) ->
    Forall (fun c => ~ same_upto 32 sub (cmd_name c)) (commands b) ->
    exit_path argv
      (ts ++ [EPrlog PR_ERR (MUnknownCommand sub); EUsage],
       Some UNKNOWN_COMMAND)
| path_handler prog pre st sub rest ts b c after :
    selects argv prog pre st sub rest ->
    resolve_backend st = (ts, Some (Some b)) ->
    first_command_match (commands b) sub c after ->
    exit_path argv
      (ts ++ ECall (cmd_name c) (Z.of_nat (List.length (sub :: rest)))
               (sub :: rest) ::
             (if func c (Z.of_nat (List.length (sub :: rest))) (sub :: rest)
                 =? UNKNOWN_COMMAND
              then [EPrlog PR_ERR (MUnknownCommand sub); EUsage]
              else []),
       Some (func c (Z.of_nat (List.length (sub :: rest))) (sub :: rest))).


(** ** Facts on C strings *)

Lemma code_inj a b : code a = code b -> a = b.
Proof.
  unfold code. intros H. apply N2Z.inj in H.
  rewrite <- (ascii_N_embedding a), <- (ascii_N_embedding b). now rewrite H.
Qed.

Lemma char_at_cstr s : char_at (cstr s) = char_at s.
Proof.
  destruct s as [|a r]; simpl; [reflexivity|].
  destruct (code a =? 0) eqn:E; simpl; [|reflexivity].
  apply Z.eqb_eq in E. now rewrite E.
Qed.

Lemma char_at_zero s : char_at s = 0 <-> cstr s = "".
Proof.
  destruct s as [|a r]; simpl; [now split|].
  destruct (code a =? 0) eqn:E.
  - apply Z.eqb_eq in E. now split.
  - apply Z.eqb_neq in E. split; [contradiction|discriminate].
Qed.

Lemma cstr_cons s :
  char_at s <> 0 ->
  exists a, code a = char_at s /\ cstr s = String a (cstr (tail s)).
Proof.
  destruct s as [|a r]; simpl; [contradiction|]. intros H.
  exists a. apply Z.eqb_neq in H. rewrite H. auto.
Qed.

Lemma strlen_cstr s : strlen s = String.length (cstr s).
Proof.
  induction s as [|a r IH]; simpl; [reflexivity|].
  destruct (code a =? 0); simpl; congruence.
Qed.

(** [strcmp] returns [0] exactly on equal C strings. *)
Lemma strcmp_zero_iff s1 s2 : strcmp s1 s2 = 0 <-> cstr s1 = cstr s2.
Proof.
  revert s2. induction s1 as [|a r1 IH]; intros s2; simpl.
  - split; intros H.
    + symmetry. apply char_at_zero. lia.
    + symmetry in H. apply char_at_zero in H. lia.
  - destruct (code a =? char_at s2) eqn:E.
    + apply Z.eqb_eq in E. destruct (code a =? 0) eqn:E0.
      * apply Z.eqb_eq in E0. rewrite E0 in E. symmetry in E.
        apply char_at_zero in E. rewrite E. now split.
      * apply Z.eqb_neq in E0.
        destruct (cstr_cons s2) as (b & Hb & Hc); [congruence|].
        rewrite Hc, IH. rewrite <- Hb in E. apply code_inj in E. subst b.
        split; [intros ->; reflexivity | intros H; now inversion H].
    + apply Z.eqb_neq in E. split; [lia|]. intros H. exfalso. apply E.
      destruct (code a =? 0) eqn:E0.
      * apply Z.eqb_eq in E0. symmetry in H. apply char_at_zero in H. lia.
      * rewrite <- (char_at_cstr s2), <- H. reflexivity.
Qed.

(** [strncmp] returns [0] exactly when the two C strings agree over their
    first [n] characters. *)
Lemma strncmp_zero_iff n :
  forall s1 s2, strncmp s1 s2 n = 0 <-> same_upto n s1 s2.
Proof.
  unfold same_upto, take.
  induction n as [|n IH]; intros s1 s2; simpl.
  - split; [|reflexivity]. intros _. now destruct (cstr s1), (cstr s2).
  - destruct (char_at s1 =? char_at s2) eqn:E.
    + apply Z.eqb_eq in E. destruct (char_at s1 =? 0) eqn:E0.
      * apply Z.eqb_eq in E0. rewrite E0 in E. symmetry in E.
        apply char_at_zero in E0, E. rewrite E0, E. now split.
      * apply Z.eqb_neq in E0.
        destruct (cstr_cons s1) as (a & Ha & Hc1); [assumption|].
        destruct (cstr_cons s2) as (b & Hb & Hc2); [congruence|].
        rewrite Hc1, Hc2, IH. simpl.
        assert (a = b) by (apply code_inj; congruence). subst b.
        split; [intros ->; reflexivity | intros H; now inversion H].
    + apply Z.eqb_neq in E. split; [lia|]. intros H. exfalso. apply E.
      rewrite <- (char_at_cstr s1), <- (char_at_cstr s2).
      destruct (cstr s1) as [|a r1], (cstr s2) as [|b r2];
        simpl in *; congruence.
Qed.

Lemma take_length_prefix p :
  forall s,
    take (String.length p) s = take (String.length p) p <->
    exists rest, s = (p ++ rest)%string.
Proof.
  unfold take. induction p as [|a p IH]; intros s; simpl.
  - split; [intros _; now exists s | intros _; now destruct s].
  - destruct s as [|b s]; simpl.
    + split; [discriminate | intros [rest H]; discriminate].
    + split.
      * intros H. injection H as -> H. apply IH in H.
        destruct H as [rest ->]. now exists rest.
      * intros [rest H]. injection H as -> H. f_equal. apply IH.
        now exists rest.
Qed.

(** The comparison of [is_known_backend]: over the length of the
    registered name, so a test that the candidate begins with it. *)
Lemma strncmp_strlen_prefix buff nm :
  strncmp buff nm (strlen nm) = 0 <-> begins_with buff nm.
Proof.
  rewrite strncmp_zero_iff, strlen_cstr. unfold same_upto, begins_with.
  apply take_length_prefix.
Qed.

(** The comparisons as the conditions of the source use them. *)
Lemma strcmp_eqb lit tok :
  (strcmp lit tok =? 0) = (cstr lit =? cstr tok)%string.
Proof.
  destruct (String.eqb_spec (cstr lit) (cstr tok)) as [H|H].
  - apply Z.eqb_eq, strcmp_zero_iff, H.
  - apply Z.eqb_neq. now rewrite strcmp_zero_iff.
Qed.

(** ** Facts on runs *)

Lemma bind_run {A B} (m : M A) (f : A -> M B) t a t' r :
  m = (t, Some a) -> f a = (t', r) -> bind m f = (t ++ t', r).
Proof. intros -> H. unfold bind. simpl. now rewrite H. Qed.

Lemma calls_app t1 t2 : calls (t1 ++ t2) = (calls t1 + calls t2)%nat.
Proof. unfold calls. now rewrite filter_app, length_app. Qed.

Lemma calls_bind {A B} (m : M A) (f : A -> M B) n :
  calls (trace m) = O ->
  (forall a, (calls (trace (f a)) <= n)%nat) ->
  (calls (trace (bind m f)) <= n)%nat.
Proof.
  intros Hm Hf. unfold bind, trace in *.
  destruct m as [t [a|]]; simpl in *.
  - rewrite calls_app, Hm. apply Hf.
  - lia.
Qed.

(** ** The flag loop *)

Lemma flag_token_cstr tok lit :
  cstr tok = lit -> char_at tok = char_at lit.
Proof. intros <-. symmetry. apply char_at_cstr. Qed.

Lemma cstr_neq_eqb lit tok :
  cstr tok <> lit -> (lit =? cstr tok)%string = false.
Proof. intros H. apply String.eqb_neq. congruence. Qed.

(** Rewrites the conditions of one turn of the loop into tests on the
    text of the token. *)
Ltac flag_conditions :=
  cbn [parse_flags]; rewrite ?strcmp_eqb;
  change (cstr "--usage") with "--usage";
  change (cstr "--help") with "--help";
  change (cstr "-h") with "-h";
  change (cstr "-m") with "-m";
  change (cstr "--mode") with "--mode";
  change (cstr "-v") with "-v";
  change (cstr "--verbose") with "--verbose";
  change (cstr "guest") with "guest";
  change (cstr "host") with "host".

Lemma parse_subcommand st tok rest :
  ~ flag_token tok ->
  parse_flags st (tok :: rest) = ret (Proceed st (tok :: rest)).
Proof.
  unfold flag_token. intros H. cbn [parse_flags].
  apply Z.eqb_neq in H. now rewrite H.
Qed.

Lemma parse_verbose st tok rest :
  is_verbose_flag tok ->
  parse_flags st (tok :: rest) =
  parse_flags {| verbose := PR_DEBUG;
                 secvarctl_mode := secvarctl_mode st;
                 backend_name := backend_name st |} rest.
Proof.
  intros [H|H]; flag_conditions;
    rewrite (flag_token_cstr _ _ H), H; reflexivity.
Qed.

Lemma parse_mode_guest st tok arg rest :
  is_mode_flag tok -> cstr arg = "guest" ->
  parse_flags st (tok :: arg :: rest) =
  parse_flags {| verbose := verbose st;
                 secvarctl_mode := 1;
                 backend_name := Some GUEST_BACKEND |} rest.
Proof.
  intros [H|H] Ha; flag_conditions;
    rewrite (flag_token_cstr _ _ H), H, Ha; reflexivity.
Qed.

Lemma parse_mode_host st tok arg rest :
  is_mode_flag tok -> cstr arg = "host" ->
  parse_flags st (tok :: arg :: rest) =
  parse_flags {| verbose := verbose st;
                 secvarctl_mode := 0;
                 backend_name := Some HOST_BACKEND |} rest.
Proof.
  intros [H|H] Ha; flag_conditions;
    rewrite (flag_token_cstr _ _ H), H, Ha; reflexivity.
Qed.

Lemma parse_mode_unknown st tok arg rest :
  is_mode_flag tok -> cstr arg <> "host" -> cstr arg <> "guest" ->
  parse_flags st (tok :: arg :: rest) =
  ([EPrlog PR_WARNING (MUnknownMode arg); EUsage], Some (Return SUCCESS)).
Proof.
  intros [H|H] Hh Hg; flag_conditions;
    rewrite (flag_token_cstr _ _ H), H,
      (cstr_neq_eqb _ _ Hh), (cstr_neq_eqb _ _ Hg); reflexivity.
Qed.

Lemma parse_mode_missing st tok :
  is_mode_flag tok ->
  parse_flags st [tok] =
  ([EPrlog PR_WARNING MModeNeeded; EUsage], Some (Return SUCCESS)).
Proof.
  intros [H|H]; flag_conditions;
    rewrite (flag_token_cstr _ _ H), H; reflexivity.
Qed.

Lemma parse_unrecognized st tok rest :
  flag_token tok -> ~ recognized_flag tok ->
  parse_flags st (tok :: rest) = ([EUsage], Some (Return SUCCESS)).
Proof.
  unfold flag_token, recognized_flag. intros H Hn. flag_conditions.
  rewrite H, !cstr_neq_eqb; [reflexivity|..];
    intros E; apply Hn; rewrite E; simpl; auto 10.
Qed.

(** Flags the parser passes over leave no trace and only change the
    variables. *)
Lemma parse_consumes st pre st' :
  consumes st pre st' ->
  forall rest, parse_flags st (pre ++ rest) = parse_flags st' rest.
Proof.
  induction 1 as [st|st tok l st' Hv _ IH|st tok arg l st' Hm Ha _ IH
                 |st tok arg l st' Hm Ha _ IH]; intros rest.
  - reflexivity.
  - rewrite <- app_comm_cons, parse_verbose by assumption. apply IH.
  - rewrite <- !app_comm_cons, parse_mode_guest by assumption. apply IH.
  - rewrite <- !app_comm_cons, parse_mode_host by assumption. apply IH.
Qed.

Lemma consumes_invariant st pre st' :
  consumes st pre st' -> mode_invariant st -> mode_invariant st'.
Proof.
  unfold mode_invariant.
  induction 1; intros Hi; [assumption|apply IHconsumes..]; simpl; auto 10.
Qed.

Lemma init_invariant : mode_invariant init_flags.
Proof. left. split; reflexivity. Qed.

(** [main] on a vector with at least one argument. *)
Lemma main_parse prog pre rest p t :
  parse_flags init_flags (pre ++ rest) = (t, Some p) ->
  pre ++ rest <> [] ->
  main (prog :: pre ++ rest) =
  bind (t, Some p) (fun p =>
    match p with
    | Return rc => ret rc
    | Proceed st args =>
        match args with
        | [] =>
            prlog PR_ERR MCommandsNotFound ;;;
            usage ;;; ret ARG_PARSE_FAIL
        | subcommand :: _ =>
            if secvarctl_mode st =? -1
            then usage ;;; ret SUCCESS
            else
              sel <- resolve_backend st ;;
              match sel with
              | None => ret SUCCESS
              | Some b =>
                  dispatch b subcommand (Z.of_nat (List.length args)) args
              end
        end
    end).
Proof.
  intros Hp Hne. unfold main.
  assert ((Z.of_nat (List.length (prog :: pre ++ rest)) <? 2) = false) as ->.
  { apply Z.ltb_ge. destruct (pre ++ rest); [congruence|].
    cbn [List.length]. lia. }
  cbn [List.tl]. now rewrite Hp.
Qed.

(** ** The registry lookup *)

Lemma known_backend_loop_found bs buff b :
  first_prefix_match bs buff b ->
  known_backend_loop bs buff =
  ([EPrlog PR_NOTICE (MFoundBackend (name b))],
   Some (BACKEND_FOUND, Some b)).
Proof.
  intros (before & after & -> & Hb & Hn).
  induction before as [|b' before IH]; cbn [known_backend_loop app].
  - apply strncmp_strlen_prefix, Z.eqb_eq in Hb. now rewrite Hb.
  - inversion Hn as [|? ? Hb' Hn']; subst.
    rewrite <- strncmp_strlen_prefix in Hb'. apply Z.eqb_neq in Hb'.
    rewrite Hb'. now apply IH.
Qed.

Lemma known_backend_loop_unknown bs buff :
  (forall b, In b bs -> ~ begins_with buff (name b)) ->
  known_backend_loop bs buff = ([], Some (UNKNOWN_BACKEND, None)).
Proof.
  induction bs as [|b bs IH]; intros Hn; cbn [known_backend_loop].
  - reflexivity.
  - assert (Hb : ~ begins_with buff (name b)) by (apply Hn; now left).
    rewrite <- strncmp_strlen_prefix in Hb. apply Z.eqb_neq in Hb.
    rewrite Hb. apply IH. intros b' Hin. apply Hn. now right.
Qed.

(** Every candidate either has a first entry it begins with, or none. *)
Lemma first_prefix_match_dec bs buff :
  (exists b, first_prefix_match bs buff b) \/
  (forall b, In b bs -> ~ begins_with buff (name b)).
Proof.
  induction bs as [|b bs IH].
  - right. intros b [].
  - destruct (Z.eq_dec (strncmp buff (name b) (strlen (name b))) 0)
      as [E|E]; rewrite strncmp_strlen_prefix in E.
    + left. exists b, [], bs. auto.
    + destruct IH as [(b' & before & after & -> & Hb & Hn)|Hn].
      * left. exists b', (b :: before), after. auto.
      * right. intros b' [<-|Hin]; auto.
Qed.

Lemma is_known_backend_found buff b :
  first_prefix_match backends buff b ->
  is_known_backend buff =
  ([ELookup buff; EPrlog PR_NOTICE (MFoundBackend (name b))],
   Some (BACKEND_FOUND, Some b)).
Proof.
  intros H. unfold is_known_backend.
  apply (bind_run (emit (ELookup buff)) _ [ELookup buff] tt
           [EPrlog PR_NOTICE (MFoundBackend (name b))]);
    [reflexivity | now apply known_backend_loop_found].
Qed.

Lemma is_known_backend_unknown buff :
  (forall b, In b backends -> ~ begins_with buff (name b)) ->
  is_known_backend buff = ([ELookup buff], Some (UNKNOWN_BACKEND, None)).
Proof.
  intros H. unfold is_known_backend.
  apply (bind_run (emit (ELookup buff)) _ [ELookup buff] tt []);
    [reflexivity | now apply known_backend_loop_unknown].
Qed.

(** The lookup returns normally, and never calls a handler. *)
Lemma is_known_backend_cases buff :
  (exists b, first_prefix_match backends buff b /\
             is_known_backend buff =
             ([ELookup buff; EPrlog PR_NOTICE (MFoundBackend (name b))],
              Some (BACKEND_FOUND, Some b))) \/
  ((forall b, In b backends -> ~ begins_with buff (name b)) /\
   is_known_backend buff = ([ELookup buff], Some (UNKNOWN_BACKEND, None))).
Proof.
  destruct (first_prefix_match_dec backends buff) as [[b H]|H].
  - left. exists b. split; [assumption|now apply is_known_backend_found].
  - right. split; [assumption|now apply is_known_backend_unknown].
Qed.

(** ** The platform probe *)

Lemma max_name_loop_max bs m :
  max_name_loop bs m = Nat.max m (longest_name bs).
Proof.
  unfold max_name_loop, longest_name, list_max. revert m.
  induction bs as [|b bs IH]; intros m; cbn [fold_left map fold_right].
  - lia.
  - rewrite IH. destruct (Nat.ltb_spec m (strlen (name b))); lia.
Qed.

(** The size [get_backend] asks for is the length of the longest name. *)
Lemma max_buff_size_longest b0 bs :
  max_name_loop (b0 :: bs) (strlen (name b0)) = longest_name (b0 :: bs).
Proof.
  rewrite max_name_loop_max. unfold longest_name, list_max.
  cbn [map fold_right]. lia.
Qed.

Lemma get_backend_no_file :
  is_file secvar_format_location <> 0 ->
  get_backend =
  ([EIsFile secvar_format_location; EPrlog PR_WARNING MNoSecvarSupport],
   Some None).
Proof.
  intros H. unfold get_backend. apply Z.eqb_neq in H. now rewrite H.
Qed.

Lemma get_backend_empty_registry :
  is_file secvar_format_location = 0 -> backends = [] ->
  get_backend = ([EIsFile secvar_format_location], None).
Proof.
  intros H Hb. unfold get_backend. rewrite H, Hb. reflexivity.
Qed.

Lemma get_backend_no_data :
  is_file secvar_format_location = 0 -> backends <> [] ->
  get_data_from_file secvar_format_location (longest_name backends) = None ->
  get_backend =
  ([EIsFile secvar_format_location;
    EGetData secvar_format_location (longest_name backends);
    EPrlog PR_WARNING (MNoData secvar_format_location)],
   Some None).
Proof.
  intros H Hb Hd. unfold get_backend. rewrite H.
  destruct backends as [|b0 bs]; [congruence|].
  cbn [nth_error]. rewrite max_buff_size_longest, Hd. reflexivity.
Qed.

Lemma get_backend_data buff :
  is_file secvar_format_location = 0 -> backends <> [] ->
  get_data_from_file secvar_format_location (longest_name backends) =
  Some buff ->
  get_backend =
  (EIsFile secvar_format_location ::
   EGetData secvar_format_location (longest_name backends) ::
   trace (r <- is_known_backend buff ;;
          (if fst r =? 0
           then prlog PR_WARNING (MUnknownFormat secvar_format_location)
           else ret tt) ;;;
          ret (snd r)),
   result (r <- is_known_backend buff ;;
           (if fst r =? 0
            then prlog PR_WARNING (MUnknownFormat secvar_format_location)
            else ret tt) ;;;
           ret (snd r))).
Proof.
  intros H Hb Hd. unfold get_backend. rewrite H.
  destruct backends as [|b0 bs]; [congruence|].
  cbn [nth_error]. rewrite max_buff_size_longest, Hd.
  unfold bind at 1 2. cbn. reflexivity.
Qed.

Lemma get_backend_found buff b :
  BACKEND_FOUND <> 0 ->
  is_file secvar_format_location = 0 -> backends <> [] ->
  get_data_from_file secvar_format_location (longest_name backends) =
  Some buff ->
  first_prefix_match backends buff b ->
  get_backend =
  ([EIsFile secvar_format_location;
    EGetData secvar_format_location (longest_name backends);
    ELookup buff;
    EPrlog PR_NOTICE (MFoundBackend (name b))],
   Some (Some b)).
Proof.
  intros Hf H Hb Hd Hm. rewrite (get_backend_data buff) by assumption.
  rewrite (is_known_backend_found _ _ Hm). unfold bind, trace, result.
  cbn. apply Z.eqb_neq in Hf. now rewrite Hf.
Qed.

Lemma get_backend_unknown buff :
  UNKNOWN_BACKEND = 0 ->
  is_file secvar_format_location = 0 -> backends <> [] ->
  get_data_from_file secvar_format_location (longest_name backends) =
  Some buff ->
  (forall b, In b backends -> ~ begins_with buff (name b)) ->
  get_backend =
  ([EIsFile secvar_format_location;
    EGetData secvar_format_location (longest_name backends);
    ELookup buff;
    EPrlog PR_WARNING (MUnknownFormat secvar_format_location)],
   Some None).
Proof.
  intros Hu H Hb Hd Hm. rewrite (get_backend_data buff) by assumption.
  rewrite (is_known_backend_unknown _ Hm). unfold bind, trace, result.
  cbn. now rewrite Hu.
Qed.

(** ** Handler calls of the phases before the dispatch: none *)

Lemma quiet_bind {A B} (m : M A) (f : A -> M B) :
  calls (trace m) = O ->
  (forall a, calls (trace (f a)) = O) ->
  calls (trace (bind m f)) = O.
Proof.
  intros Hm Hf. apply Nat.le_0_r, calls_bind; [assumption|].
  intros a. now rewrite Hf.
Qed.

Lemma is_known_backend_quiet buff : calls (trace (is_known_backend buff)) = O.
Proof.
  destruct (is_known_backend_cases buff) as [(b & _ & ->)|[_ ->]];
    reflexivity.
Qed.

Lemma get_backend_quiet : calls (trace get_backend) = O.
Proof.
  unfold get_backend. apply quiet_bind; [reflexivity|]. intros _.
  destruct (negb _); [reflexivity|].
  destruct (nth_error backends 0); [|reflexivity].
  apply quiet_bind; [reflexivity|]. intros _.
  destruct (get_data_from_file _ _); [|reflexivity].
  apply quiet_bind; [apply is_known_backend_quiet|]. intros r.
  apply quiet_bind; [|reflexivity]. now destruct (fst r =? 0).
Qed.

Lemma resolve_backend_quiet st : calls (trace (resolve_backend st)) = O.
Proof.
  unfold resolve_backend. apply quiet_bind; [apply get_backend_quiet|].
  intros [b|]; [reflexivity|].
  destruct (backend_name st); [|reflexivity].
  apply quiet_bind; [apply is_known_backend_quiet|]. intros r.
  destruct (negb _); [now destruct (snd r)|reflexivity].
Qed.

Lemma parse_flags_quiet argv :
  forall st,
    calls (trace (parse_flags st argv)) = O /\
    forall tok, calls (trace (parse_flags st (tok :: argv))) = O.
Proof.
  induction argv as [|arg rest IH]; intros st.
  - split; [reflexivity|]. intros tok. cbn [parse_flags].
    repeat (match goal with |- context [if ?c then _ else _] =>
                              destruct c end; try reflexivity).
  - split; [apply IH|]. intros tok. cbn [parse_flags].
    repeat (match goal with |- context [if ?c then _ else _] =>
                              destruct c end;
            try reflexivity; try apply IH).
Qed.

(** ** The fallback *)

Lemma resolve_backend_probed st tp b :
  get_backend = (tp, Some (Some b)) ->
  resolve_backend st = (tp, Some (Some b)).
Proof.
  intros H. unfold resolve_backend. rewrite H. unfold bind. cbn.
  now rewrite app_nil_r.
Qed.

Lemma resolve_backend_fallback st tp bn b :
  BACKEND_FOUND <> 0 ->
  get_backend = (tp, Some None) -> backend_name st = Some bn ->
  first_prefix_match backends bn b ->
  resolve_backend st =
  (tp ++ [ELookup bn; EPrlog PR_NOTICE (MFoundBackend (name b));
          EPrlog PR_WARNING (MUnsupportedBackend (name b))],
   Some (Some b)).
Proof.
  intros Hf H Hn Hm. unfold resolve_backend. rewrite H, Hn.
  rewrite (is_known_backend_found _ _ Hm). unfold bind. cbn.
  apply Z.eqb_neq in Hf. now rewrite Hf.
Qed.

Lemma resolve_backend_disabled st tp bn :
  UNKNOWN_BACKEND = 0 ->
  get_backend = (tp, Some None) -> backend_name st = Some bn ->
  (forall b, In b backends -> ~ begins_with bn (name b)) ->
  resolve_backend st =
  (tp ++ [ELookup bn;
          EPrlog PR_WARNING
            (MModeNotEnabled
               (if negb (secvarctl_mode st =? 0) then "guest" else "host"))],
   Some None).
Proof.
  intros Hu H Hn Hm. unfold resolve_backend. rewrite H, Hn.
  rewrite (is_known_backend_unknown _ Hm). unfold bind. cbn.
  now rewrite Hu.
Qed.

(** ** The dispatch loop *)

Lemma command_loop_match cmds sub c after argc argv :
  first_command_match cmds sub c after ->
  command_loop cmds sub argc argv =
  ([ECall (cmd_name c) argc argv], Some (func c argc argv)).
Proof.
  intros (before & -> & Hc & Hn).
  induction before as [|c' before IH]; cbn [command_loop app].
  - apply strncmp_zero_iff, Z.eqb_eq in Hc. now rewrite Hc.
  - inversion Hn as [|? ? Hc' Hn']; subst.
    rewrite <- strncmp_zero_iff in Hc'. apply Z.eqb_neq in Hc'.
    rewrite Hc'. now apply IH.
Qed.

Lemma command_loop_no_match cmds sub argc argv :
  Forall (fun c => ~ same_upto 32 sub (cmd_name c)) cmds ->
  command_loop cmds sub argc argv = ([], Some UNKNOWN_COMMAND).
Proof.
  induction 1 as [|c cmds Hc _ IH]; cbn [command_loop]; [reflexivity|].
  rewrite <- strncmp_zero_iff in Hc. apply Z.eqb_neq in Hc. now rewrite Hc.
Qed.

Lemma first_command_match_dec cmds sub :
  (exists c after, first_command_match cmds sub c after) \/
  Forall (fun c => ~ same_upto 32 sub (cmd_name c)) cmds.
Proof.
  induction cmds as [|c cmds IH].
  - right. constructor.
  - destruct (Z.eq_dec (strncmp sub (cmd_name c) 32) 0) as [E|E];
      rewrite strncmp_zero_iff in E.
    + left. exists c, cmds, []. auto.
    + destruct IH as [(c' & after & before & -> & Hc & Hn)|Hn].
      * left. exists c', after, (c :: before). auto.
      * right. now constructor.
Qed.

Lemma dispatch_match b sub c after argc argv :
  first_command_match (commands b) sub c after ->
  dispatch b sub argc argv =
  (ECall (cmd_name c) argc argv ::
   (if func c argc argv =? UNKNOWN_COMMAND
    then [EPrlog PR_ERR (MUnknownCommand sub); EUsage]
    else []),
   Some (func c argc argv)).
Proof.
  intros H. unfold dispatch.
  rewrite (command_loop_match _ _ _ _ argc argv H). unfold bind. cbn.
  now destruct (func c argc argv =? UNKNOWN_COMMAND).
Qed.

Lemma dispatch_no_match b sub argc argv :
  Forall (fun c => ~ same_upto 32 sub (cmd_name c)) (commands b) ->
  dispatch b sub argc argv =
  ([EPrlog PR_ERR (MUnknownCommand sub); EUsage], Some UNKNOWN_COMMAND).
Proof.
  intros H. unfold dispatch.
  rewrite (command_loop_no_match _ _ argc argv H). unfold bind. cbn.
  now rewrite Z.eqb_refl.
Qed.

Lemma dispatch_calls b sub argc argv :
  (calls (trace (dispatch b sub argc argv)) <= 1)%nat.
Proof.
  destruct (first_command_match_dec (commands b) sub)
    as [(c & after & H)|H].
  - rewrite (dispatch_match _ _ _ _ argc argv H).
    destruct (func c argc argv =? UNKNOWN_COMMAND); cbn; lia.
  - rewrite (dispatch_no_match _ _ argc argv H). cbn. lia.
Qed.

(** ** [main] after the flags *)

Lemma main_dispatch prog pre st sub args ts b :
  consumes init_flags pre st -> secvarctl_mode st <> -1 ->
  ~ flag_token sub ->
  resolve_backend st = (ts, Some (Some b)) ->
  main (prog :: pre ++ sub :: args) =
  (ts ++ trace (dispatch b sub (Z.of_nat (List.length (sub :: args)))
                  (sub :: args)),
   result (dispatch b sub (Z.of_nat (List.length (sub :: args)))
             (sub :: args))).
Proof.
  intros Hc Hm Hs Hr.
  rewrite (main_parse prog pre (sub :: args) (Proceed st (sub :: args)) []).
  - apply Z.eqb_neq in Hm. unfold bind at 1. cbn [fst snd app].
    rewrite Hm, Hr. unfold bind. reflexivity.
  - rewrite (parse_consumes _ _ _ Hc). now apply parse_subcommand.
  - now destruct pre.
Qed.

Lemma main_no_backend prog pre st sub args ts :
  consumes init_flags pre st -> secvarctl_mode st <> -1 ->
  ~ flag_token sub ->
  resolve_backend st = (ts, Some None) ->
  main (prog :: pre ++ sub :: args) = (ts, Some SUCCESS).
Proof.
  intros Hc Hm Hs Hr.
  rewrite (main_parse prog pre (sub :: args) (Proceed st (sub :: args)) []).
  - apply Z.eqb_neq in Hm. unfold bind at 1. cbn [fst snd app].
    rewrite Hm, Hr. unfold bind. cbn. now rewrite app_nil_r.
  - rewrite (parse_consumes _ _ _ Hc). now apply parse_subcommand.
  - now destruct pre.
Qed.

Lemma requested_backend_name st :
  mode_invariant st -> secvarctl_mode st <> -1 ->
  backend_name st =
  Some (if secvarctl_mode st =? 0 then HOST_BACKEND else GUEST_BACKEND).
Proof.
  intros [[Hm Hn]|[[Hm Hn]|[Hm Hn]]] Hne; rewrite Hn, Hm;
    [contradiction|reflexivity..].
Qed.

(** ** The claims on the dispatcher *)

(** C1. Given a resolved backend [b] and the remaining vector
    [sub :: args], the dispatcher walks the command table of [b] in
    order, comparing [sub] with each name over at most 32 characters. It
    calls the handler of the first entry that agrees, once, with [argc] the
    length of the remaining vector and [argv] that vector ([sub] first), and
    returns the handler's status; when no entry agrees it prints the
    unknown-command error and the usage text and returns
    [UNKNOWN_COMMAND]. The status of the dispatcher is the exit status of
    [main]. *)
Theorem dispatch_invokes_first_match b sub args :
  let argv := sub :: args in
  let argc := Z.of_nat (List.length argv) in
  (forall c after,
      first_command_match (commands b) sub c after ->
      filter is_call (trace (dispatch b sub argc argv)) =
        [ECall (cmd_name c) argc argv] /\
      result (dispatch b sub argc argv) = Some (func c argc argv)) /\
  (Forall (fun c => ~ same_upto 32 sub (cmd_name c)) (commands b) ->
   dispatch b sub argc argv =
   ([EPrlog PR_ERR (MUnknownCommand sub); EUsage], Some UNKNOWN_COMMAND)) /\
  (forall prog pre st ts,
      consumes init_flags pre st -> secvarctl_mode st <> -1 ->
      ~ flag_token sub ->
      resolve_backend st = (ts, Some (Some b)) ->
      main (prog :: pre ++ argv) =
      (ts ++ trace (dispatch b sub argc argv),
       result (dispatch b sub argc argv))).
Proof.
  intros argv argc. split; [|split].
  - intros c after H. rewrite (dispatch_match _ _ _ _ argc argv H).
    split; [|reflexivity]. unfold trace. cbn [fst].
    now destruct (func c argc argv =? UNKNOWN_COMMAND).
  - apply dispatch_no_match.
  - intros prog pre st ts. apply main_dispatch.
Qed.

(** C2, as the code has it. When a handler is called, its status is the
    exit status of [main], whatever integer it is. The unknown-command
    error and the usage text follow the call exactly when that status is
    [UNKNOWN_COMMAND]: the dispatcher tests the status, not whether an
    entry matched. *)
Theorem handler_status_is_exit_status prog pre st ts b sub args c after :
  consumes init_flags pre st -> secvarctl_mode st <> -1 ->
  ~ flag_token sub ->
  resolve_backend st = (ts, Some (Some b)) ->
  first_command_match (commands b) sub c after ->
  let argv := sub :: args in
  let argc := Z.of_nat (List.length argv) in
  let rc := func c argc argv in
  main (prog :: pre ++ argv) =
  (ts ++ ECall (cmd_name c) argc argv ::
         (if rc =? UNKNOWN_COMMAND
          then [EPrlog PR_ERR (MUnknownCommand sub); EUsage]
          else []),
   Some rc).
Proof.
  intros Hc Hm Hs Hr Hf argv argc rc. subst argv argc rc.
  rewrite (main_dispatch prog pre st sub args ts b) by assumption.
  now rewrite (dispatch_match _ _ _ _ _ _ Hf).
Qed.

(** C8. No run of [main] calls more than one handler; and the dispatch
    loop stops at an entry that agrees with the subcommand: what follows
    that entry in the table has no part in the run. *)
Theorem at_most_one_handler_call :
  (forall argv, (calls (trace (main argv)) <= 1)%nat) /\
  (forall before c after after' sub argc argv,
      same_upto 32 sub (cmd_name c) ->
      command_loop (before ++ c :: after) sub argc argv =
      command_loop (before ++ c :: after') sub argc argv).
Proof.
  split.
  - intros argv. unfold main.
    destruct (Z.of_nat (List.length argv) <? 2); [cbn; lia|].
    apply calls_bind; [apply parse_flags_quiet|].
    intros [rc|st [|sub args]]; [cbn; lia..|].
    destruct (secvarctl_mode st =? -1); [cbn; lia|].
    apply calls_bind; [apply resolve_backend_quiet|].
    intros [b|]; [apply dispatch_calls|cbn; lia].
  - intros before c after after' sub argc argv Hc.
    apply strncmp_zero_iff, Z.eqb_eq in Hc.
    induction before as [|c' before IH]; cbn [command_loop app].
    + now rewrite Hc.
    + now rewrite IH.
Qed.

(** ** The claims on the fallback and the probe *)

(** C3. With the mode resolved, a probe that finds a backend leads
    straight to the dispatch. A probe that returns NULL is not an error:
    the name that goes with the requested mode is looked up in the
    registry; when the lookup finds a backend, [main] warns and dispatches
    on it exactly as it does on a probed backend; when it finds none,
    [main] warns that the mode is not enabled and returns [SUCCESS], and no
    handler is called. *)
Theorem probe_not_found_falls_back prog pre st sub args :
  BACKEND_FOUND <> 0 -> UNKNOWN_BACKEND = 0 ->
  consumes init_flags pre st -> secvarctl_mode st <> -1 ->
  ~ flag_token sub ->
  let argv := sub :: args in
  let argc := Z.of_nat (List.length argv) in
  let requested :=
    if secvarctl_mode st =? 0 then HOST_BACKEND else GUEST_BACKEND in
  (forall tp b,
      get_backend = (tp, Some (Some b)) ->
      main (prog :: pre ++ argv) =
      (tp ++ trace (dispatch b sub argc argv),
       result (dispatch b sub argc argv))) /\
  (forall tp,
      get_backend = (tp, Some None) ->
      (forall b,
          first_prefix_match backends requested b ->
          main (prog :: pre ++ argv) =
          ((tp ++ [ELookup requested;
                   EPrlog PR_NOTICE (MFoundBackend (name b));
                   EPrlog PR_WARNING (MUnsupportedBackend (name b))])
           ++ trace (dispatch b sub argc argv),
           result (dispatch b sub argc argv))) /\
      ((forall b, In b backends -> ~ begins_with requested (name b)) ->
       main (prog :: pre ++ argv) =
       (tp ++ [ELookup requested;
               EPrlog PR_WARNING
                 (MModeNotEnabled
                    (if secvarctl_mode st =? 0 then "host" else "guest"))],
        Some SUCCESS) /\
       calls (trace (main (prog :: pre ++ argv))) = O)).
Proof.
  intros Hf Hu Hc Hm Hs argv argc requested.
  assert (Hn : backend_name st = Some requested).
  { apply requested_backend_name; [|assumption].
    exact (consumes_invariant _ _ _ Hc init_invariant). }
  split.
  - intros tp b Hp. apply main_dispatch with (st := st); try assumption.
    now apply resolve_backend_probed.
  - intros tp Hp. split.
    + intros b Hb. apply main_dispatch with (st := st); try assumption.
      now apply resolve_backend_fallback.
    + intros Hb.
      assert (E : main (prog :: pre ++ argv) =
                  (tp ++ [ELookup requested;
                          EPrlog PR_WARNING
                            (MModeNotEnabled
                               (if secvarctl_mode st =? 0
                                then "host" else "guest"))],
                   Some SUCCESS)).
      { unfold argv.
        rewrite (main_no_backend prog pre st sub args _ Hc Hm Hs
                   (resolve_backend_disabled st tp requested Hu Hp Hn Hb)).
        now destruct (secvarctl_mode st =? 0). }
      split; [exact E|]. rewrite E. unfold trace. cbn [fst].
      rewrite calls_app. change (calls tp) with (calls (trace (tp, Some (@None backend)))).
      rewrite <- Hp, get_backend_quiet. reflexivity.
Qed.

(** X17. With a backend registered, the probe never ends in a fault. It
    asks [get_data_from_file] for at most [N] bytes of the status file,
    [N] the length of the longest registered name. In each of its three
    failing outcomes (no status file; a status file that yields no data;
    data that begins with no registered name) it logs one warning and
    returns NULL. *)
Theorem probe_fails_softly :
  UNKNOWN_BACKEND = 0 -> BACKEND_FOUND <> 0 -> backends <> [] ->
  let path := secvar_format_location in
  let N := longest_name backends in
  (exists r, result get_backend = Some r) /\
  (forall p n, In (EGetData p n) (trace get_backend) -> p = path /\ n = N) /\
  (is_file path <> 0 ->
   get_backend =
   ([EIsFile path; EPrlog PR_WARNING MNoSecvarSupport], Some None)) /\
  (is_file path = 0 -> get_data_from_file path N = None ->
   get_backend =
   ([EIsFile path; EGetData path N; EPrlog PR_WARNING (MNoData path)],
    Some None)) /\
  (forall buff,
      is_file path = 0 -> get_data_from_file path N = Some buff ->
      (forall b, In b backends -> ~ begins_with buff (name b)) ->
      get_backend =
      ([EIsFile path; EGetData path N; ELookup buff;
        EPrlog PR_WARNING (MUnknownFormat path)],
       Some None)).
Proof.
  intros Hu Hf Hne path N.
  assert (Hcases :
    get_backend =
      ([EIsFile path; EPrlog PR_WARNING MNoSecvarSupport], Some None) \/
    get_backend =
      ([EIsFile path; EGetData path N; EPrlog PR_WARNING (MNoData path)],
       Some None) \/
    (exists buff b,
        get_backend =
        ([EIsFile path; EGetData path N; ELookup buff;
          EPrlog PR_NOTICE (MFoundBackend (name b))], Some (Some b))) \/
    (exists buff,
        get_backend =
        ([EIsFile path; EGetData path N; ELookup buff;
          EPrlog PR_WARNING (MUnknownFormat path)], Some None))).
  { destruct (Z.eq_dec (is_file path) 0) as [E|E].
    - destruct (get_data_from_file path N) as [buff|] eqn:Hd.
      + destruct (first_prefix_match_dec backends buff) as [[b Hb]|Hb].
        * right; right; left. exists buff, b.
          now apply get_backend_found.
        * right; right; right. exists buff. now apply get_backend_unknown.
      + right; left. now apply get_backend_no_data.
    - left. now apply get_backend_no_file. }
  split; [|split; [|split; [|split]]].
  - destruct Hcases as [->|[->|[(buff & b & ->)|(buff & ->)]]];
      eexists; reflexivity.
  - intros p n.
    destruct Hcases as [->|[->|[(buff & b & ->)|(buff & ->)]]];
      cbn; intros H;
      repeat (destruct H as [H|H]; [try discriminate|]);
      try contradiction; injection H as <- <-; auto.
  - apply get_backend_no_file.
  - intros. now apply get_backend_no_data.
  - intros. now apply get_backend_unknown.
Qed.

(** ** [main] on a bad or missing mode *)

Lemma main_mode_unknown prog pre st tok arg rest :
  consumes init_flags pre st -> is_mode_flag tok ->
  cstr arg <> "host" -> cstr arg <> "guest" ->
  main (prog :: pre ++ tok :: arg :: rest) =
  ([EPrlog PR_WARNING (MUnknownMode arg); EUsage], Some SUCCESS).
Proof.
  intros Hc Ht Hh Hg.
  rewrite (main_parse prog pre (tok :: arg :: rest) (Return SUCCESS)
             [EPrlog PR_WARNING (MUnknownMode arg); EUsage]).
  - reflexivity.
  - rewrite (parse_consumes _ _ _ Hc). now apply parse_mode_unknown.
  - now destruct pre.
Qed.

Lemma main_mode_missing prog pre st tok :
  consumes init_flags pre st -> is_mode_flag tok ->
  main (prog :: pre ++ [tok]) =
  ([EPrlog PR_WARNING MModeNeeded; EUsage], Some SUCCESS).
Proof.
  intros Hc Ht.
  rewrite (main_parse prog pre [tok] (Return SUCCESS)
             [EPrlog PR_WARNING MModeNeeded; EUsage]).
  - reflexivity.
  - rewrite (parse_consumes _ _ _ Hc). now apply parse_mode_missing.
  - now destruct pre.
Qed.

Lemma main_mode_unset prog pre st sub args :
  consumes init_flags pre st ->
  secvarctl_mode st = -1 -> ~ flag_token sub ->
  main (prog :: pre ++ sub :: args) = ([EUsage], Some SUCCESS).
Proof.
  intros Hc Hm Hs.
  rewrite (main_parse prog pre (sub :: args) (Proceed st (sub :: args)) []).
  - unfold bind at 1. cbn [fst snd app]. now rewrite Hm.
  - rewrite (parse_consumes _ _ _ Hc). now apply parse_subcommand.
  - now destruct pre.
Qed.

(** ** The claims on the argument parser *)

(** C6. When the parser reaches [-m] or [--mode] and the next token is
    neither [host] nor [guest] (compared as they are written), or there is
    no next token, [main] logs a warning, prints the usage text and returns
    [SUCCESS]. When the flags end at a subcommand and no mode was given,
    [main] prints the usage text and returns [SUCCESS]. None of these runs
    probes the platform, looks up a backend or calls a handler: the traces
    below are the whole runs. *)
Theorem bad_mode_exits_with_success prog pre st tok :
  consumes init_flags pre st -> is_mode_flag tok ->
  (forall arg rest,
      cstr arg <> "host" -> cstr arg <> "guest" ->
      main (prog :: pre ++ tok :: arg :: rest) =
      ([EPrlog PR_WARNING (MUnknownMode arg); EUsage], Some SUCCESS)) /\
  main (prog :: pre ++ [tok]) =
    ([EPrlog PR_WARNING MModeNeeded; EUsage], Some SUCCESS) /\
  (forall sub args,
      secvarctl_mode st = -1 -> ~ flag_token sub ->
      main (prog :: pre ++ sub :: args) = ([EUsage], Some SUCCESS)).
Proof.
  intros Hc Ht. split; [|split].
  - intros arg rest. now apply main_mode_unknown with (st := st).
  - now apply main_mode_missing with (st := st).
  - intros sub args. now apply main_mode_unset.
Qed.

(** C7. With no argument after the program name [main] prints the usage
    text and returns [ARG_PARSE_FAIL]. When the flags use up the whole
    vector and no subcommand is left, [main] logs an error, prints the usage
    text and returns [ARG_PARSE_FAIL]. As the header gives
    [ARG_PARSE_FAIL] and [SUCCESS] different values, these runs end in a
    status other than that of a run with a bad mode. *)
Theorem no_subcommand_fails prog :
  main [prog] = ([EUsage], Some ARG_PARSE_FAIL) /\
  main [] = ([EUsage], Some ARG_PARSE_FAIL) /\
  (forall pre st,
      consumes init_flags pre st -> pre <> [] ->
      main (prog :: pre) =
      ([EPrlog PR_ERR MCommandsNotFound; EUsage], Some ARG_PARSE_FAIL)) /\
  (ARG_PARSE_FAIL <> SUCCESS ->
   forall pre st tok,
     consumes init_flags pre st -> is_mode_flag tok ->
     result (main [prog]) <> result (main (prog :: pre ++ [tok])) /\
     (pre <> [] ->
      result (main (prog :: pre)) <> result (main (prog :: pre ++ [tok])))).
Proof.
  assert (Hflags : forall pre st,
             consumes init_flags pre st -> pre <> [] ->
             main (prog :: pre) =
             ([EPrlog PR_ERR MCommandsNotFound; EUsage],
              Some ARG_PARSE_FAIL)).
  { intros pre st Hc Hne. rewrite <- (app_nil_r pre).
    rewrite (main_parse prog pre [] (Proceed st []) []).
    - reflexivity.
    - now rewrite (parse_consumes _ _ _ Hc).
    - now rewrite app_nil_r. }
  split; [reflexivity|split; [reflexivity|split; [exact Hflags|]]].
  intros Hd pre st tok Hc Ht.
  rewrite (main_mode_missing prog pre st tok Hc Ht).
  split.
  - cbn. congruence.
  - intros Hne. rewrite (Hflags pre st Hc Hne). cbn. congruence.
Qed.

(** C9. When the parser reaches a token that opens with ['-'] and is none
    of [--usage], [--help], [-h], [-m], [--mode], [-v], [--verbose],
    [main] prints the usage text, logs nothing and returns [SUCCESS]; it
    neither probes the platform, nor looks up a backend, nor calls a
    handler. *)
Theorem unrecognized_flag_prints_usage prog pre st tok rest :
  consumes init_flags pre st ->
  flag_token tok -> ~ recognized_flag tok ->
  main (prog :: pre ++ tok :: rest) = ([EUsage], Some SUCCESS).
Proof.
  intros Hc Ht Hn.
  rewrite (main_parse prog pre (tok :: rest) (Return SUCCESS) [EUsage]).
  - reflexivity.
  - rewrite (parse_consumes _ _ _ Hc). now apply parse_unrecognized.
  - now destruct pre.
Qed.

(** The probe of a non-empty registry returns, and reads the status file
    when it exists. *)
Lemma get_backend_returns :
  backends <> [] ->
  (exists r, result get_backend = Some r) /\
  (is_file secvar_format_location = 0 ->
   In (EGetData secvar_format_location (longest_name backends))
      (trace get_backend)).
Proof.
  intros Hne.
  destruct (Z.eq_dec (is_file secvar_format_location) 0) as [E|E].
  - destruct (get_data_from_file secvar_format_location
                (longest_name backends)) as [buff|] eqn:Hd.
    + rewrite (get_backend_data buff) by assumption.
      destruct (is_known_backend_cases buff) as [(b & _ & ->)|[_ ->]];
        unfold bind, trace, result; cbn.
      * destruct (BACKEND_FOUND =? 0); cbn; eauto.
      * destruct (UNKNOWN_BACKEND =? 0); cbn; eauto.
    + rewrite get_backend_no_data by assumption. cbn. eauto.
  - rewrite get_backend_no_file by assumption. cbn.
    split; [eauto|contradiction].
Qed.

(** ** The flag loop, every case *)

Lemma parse_usage st tok rest :
  cstr tok = "--usage" ->
  parse_flags st (tok :: rest) = ([EUsage], Some (Return SUCCESS)).
Proof.
  intros H. flag_conditions.
  rewrite (flag_token_cstr _ _ H), H. reflexivity.
Qed.

Lemma parse_help st tok rest :
  cstr tok = "--help" \/ cstr tok = "-h" ->
  parse_flags st (tok :: rest) = ([EHelp; EUsage], Some (Return SUCCESS)).
Proof.
  intros [H|H]; flag_conditions;
    rewrite (flag_token_cstr _ _ H), H; reflexivity.
Qed.

Lemma falls_through_step st st' p l :
  (forall rest, parse_flags st (p ++ rest) = parse_flags st' rest) ->
  (forall pre st'', consumes st' pre st'' -> consumes st (p ++ pre) st'') ->
  falls_through st' l \/ exits_early st' l ->
  falls_through st (p ++ l) \/ exits_early st (p ++ l).
Proof.
  intros Hp Hc [(pre & rest & st'' & -> & Hpre & Hrun & Hrest)|(t & Hrun & Ht)].
  - left. exists (p ++ pre), rest, st''.
    rewrite app_assoc, <- app_assoc, Hp. auto.
  - right. exists t. rewrite Hp. auto.
Qed.

Lemma parse_flags_step st tok l :
  (forall st', falls_through st' l \/ exits_early st' l) ->
  (forall st', match l with
               | [] => True
               | _ :: l' => falls_through st' l' \/ exits_early st' l'
               end) ->
  falls_through st (tok :: l) \/ exits_early st (tok :: l).
Proof.
  intros Hl Hl'.
  destruct (Z.eq_dec (char_at tok) (code "-")) as [Hf|Hf].
  2:{ left. exists [], (tok :: l), st.
      split; [reflexivity|]. split; [constructor|].
      split; [now apply parse_subcommand|]. right. now exists tok, l. }
  destruct (string_dec (cstr tok) "--usage") as [E1|E1].
  { right. exists [EUsage]. split; [now apply parse_usage|now left]. }
  destruct (string_dec (cstr tok) "--help") as [E2|E2].
  { right. exists [EHelp; EUsage].
    split; [apply parse_help; now left|right; now left]. }
  destruct (string_dec (cstr tok) "-h") as [E3|E3].
  { right. exists [EHelp; EUsage].
    split; [apply parse_help; now right|right; now left]. }
  assert (Hmode : is_mode_flag tok ->
                  falls_through st (tok :: l) \/ exits_early st (tok :: l)).
  { intros Hm. destruct l as [|arg l'].
    - right. exists [EPrlog PR_WARNING MModeNeeded; EUsage].
      split; [now apply parse_mode_missing|do 3 right; reflexivity].
    - destruct (string_dec (cstr arg) "guest") as [Eg|Eg].
      + apply (falls_through_step st _ [tok; arg] l'
                 (fun rest => parse_mode_guest st tok arg rest Hm Eg)).
        * intros pre st''. now apply consumes_guest.
        * apply Hl'.
      + destruct (string_dec (cstr arg) "host") as [Eh|Eh].
        * apply (falls_through_step st _ [tok; arg] l'
                   (fun rest => parse_mode_host st tok arg rest Hm Eh)).
          -- intros pre st''. now apply consumes_host.
          -- apply Hl'.
        * right. exists [EPrlog PR_WARNING (MUnknownMode arg); EUsage].
          split; [now apply parse_mode_unknown|].
          right; right; left. now exists arg. }
  destruct (string_dec (cstr tok) "-m") as [E4|E4]; [apply Hmode; now left|].
  destruct (string_dec (cstr tok) "--mode") as [E5|E5];
    [apply Hmode; now right|].
  assert (Hverb : is_verbose_flag tok ->
                  falls_through st (tok :: l) \/ exits_early st (tok :: l)).
  { intros Hv.
    apply (falls_through_step st _ [tok] l
             (fun rest => parse_verbose st tok rest Hv)).
    - intros pre st''. now apply consumes_verbose.
    - apply Hl. }
  destruct (string_dec (cstr tok) "-v") as [E6|E6]; [apply Hverb; now left|].
  destruct (string_dec (cstr tok) "--verbose") as [E7|E7];
    [apply Hverb; now right|].
  right. exists [EUsage]. split; [|now left].
  apply parse_unrecognized; [exact Hf|].
  unfold recognized_flag. cbn [In].
  intros H. repeat (destruct H as [H|H]; [congruence|]). exact H.
Qed.

(** Each run of the loop is of one of the two kinds. *)
Lemma parse_flags_cases argv :
  forall st,
    (falls_through st argv \/ exits_early st argv) /\
    (forall tok,
        falls_through st (tok :: argv) \/ exits_early st (tok :: argv)).
Proof.
  induction argv as [|arg rest IH]; intros st.
  - split.
    + left. exists [], [], st. repeat split; [constructor|now left].
    + intros tok. apply parse_flags_step; [|exact (fun _ => I)].
      intros st'. left. exists [], [], st'.
      repeat split; [constructor|now left].
  - split; [apply IH|]. intros tok. apply parse_flags_step.
    + intros st'. apply IH.
    + intros st'. apply IH.
Qed.

Lemma exit_report_not_empty t : exit_report t -> t <> [].
Proof. intros [ -> | [ -> | [ [arg -> ] | -> ] ] ]; discriminate. Qed.

(** ** More on the argument parser *)

(** X1. The flag loop falls out (without a [return]) only in one way: it
    has read a run of flags it accepts ([-v], [--verbose], [-m] or [--mode]
    with [host] or [guest]), it has printed nothing, and what is left of
    the vector is empty or starts at the first token that does not open
    with ['-']. *)
Theorem flag_loop_falls_through_after_accepted_flags st argv st' rest :
  result (parse_flags st argv) = Some (Proceed st' rest) ->
  trace (parse_flags st argv) = [] /\
  exists pre,
    argv = pre ++ rest /\
    consumes st pre st' /\
    (rest = [] \/ exists sub args, rest = sub :: args /\ ~ flag_token sub).
Proof.
  intros H.
  destruct (proj1 (parse_flags_cases argv st))
    as [(pre & rest' & st'' & Hargv & Hpre & Hrun & Hrest)|(t & Hrun & _)];
    rewrite Hrun in *; cbn in H; [|discriminate].
  injection H as <- <-. split; [reflexivity|]. now exists pre.
Qed.

(** X2. The flag loop always comes to an end, and when it ends [main] by
    a [return] the status is [SUCCESS] and the last thing printed is the
    usage text: after nothing else, after the help text, or after one
    warning on the mode. *)
Theorem flag_loop_returns_only_success st argv :
  (exists p, result (parse_flags st argv) = Some p) /\
  (forall rc,
      result (parse_flags st argv) = Some (Return rc) ->
      rc = SUCCESS /\ exit_report (trace (parse_flags st argv))).
Proof.
  destruct (proj1 (parse_flags_cases argv st))
    as [(pre & rest' & st'' & Hargv & Hpre & Hrun & Hrest)|(t & Hrun & Ht)];
    rewrite Hrun; cbn.
  - split; [eauto|]. discriminate.
  - split; [eauto|]. intros rc H. now injection H as <-.
Qed.

(** X3. When the parser reaches [--usage], [main] prints the usage text
    and returns [SUCCESS]; when it reaches [--help] or [-h], it prints the
    help text, then the usage text, and returns [SUCCESS]. Whatever
    follows the flag is not read. *)
Theorem usage_and_help_flags prog pre st tok rest :
  consumes init_flags pre st ->
  (cstr tok = "--usage" ->
   main (prog :: pre ++ tok :: rest) = ([EUsage], Some SUCCESS)) /\
  (cstr tok = "--help" \/ cstr tok = "-h" ->
   main (prog :: pre ++ tok :: rest) = ([EHelp; EUsage], Some SUCCESS)).
Proof.
  intros Hc. split; intros Ht.
  - rewrite (main_parse prog pre (tok :: rest) (Return SUCCESS) [EUsage]).
    + reflexivity.
    + rewrite (parse_consumes _ _ _ Hc). now apply parse_usage.
    + now destruct pre.
  - rewrite (main_parse prog pre (tok :: rest) (Return SUCCESS)
               [EHelp; EUsage]).
    + reflexivity.
    + rewrite (parse_consumes _ _ _ Hc). now apply parse_help.
    + now destruct pre.
Qed.

(** X4. Of several mode flags the last one counts: after [-m] or [--mode]
    with [host] or [guest] the mode and the backend name are those of that
    flag, whatever the flags before it had set; the flags before it matter
    only through the verbosity they leave. *)
Theorem last_mode_flag_wins st1 st2 pre1 pre2 st1' st2' tok arg rest :
  consumes st1 pre1 st1' -> consumes st2 pre2 st2' ->
  verbose st1' = verbose st2' ->
  is_mode_flag tok -> cstr arg = "host" \/ cstr arg = "guest" ->
  parse_flags st1 (pre1 ++ tok :: arg :: rest) =
  parse_flags st2 (pre2 ++ tok :: arg :: rest) /\
  parse_flags st1 (pre1 ++ tok :: arg :: rest) =
  parse_flags
    {| verbose := verbose st1';
       secvarctl_mode := if (cstr arg =? "host")%string then 0 else 1;
       backend_name :=
         Some (if (cstr arg =? "host")%string
               then HOST_BACKEND else GUEST_BACKEND) |} rest.
Proof.
  intros H1 H2 Hv Hm Ha.
  rewrite (parse_consumes _ _ _ H1), (parse_consumes _ _ _ H2).
  destruct Ha as [Ha|Ha].
  - rewrite !(parse_mode_host _ tok arg rest Hm Ha), Ha, Hv. now split.
  - rewrite !(parse_mode_guest _ tok arg rest Hm Ha), Ha, Hv. now split.
Qed.

(** ** The ways through [main] *)

Lemma main_fault prog pre st sub args ts :
  consumes init_flags pre st -> secvarctl_mode st <> -1 ->
  ~ flag_token sub ->
  resolve_backend st = (ts, None) ->
  main (prog :: pre ++ sub :: args) = (ts, None).
Proof.
  intros Hc Hm Hs Hr.
  rewrite (main_parse prog pre (sub :: args) (Proceed st (sub :: args)) []).
  - apply Z.eqb_neq in Hm. unfold bind at 1. cbn [fst snd app].
    rewrite Hm, Hr. reflexivity.
  - rewrite (parse_consumes _ _ _ Hc). now apply parse_subcommand.
  - now destruct pre.
Qed.

Lemma main_exit_path argv : exit_path argv (main argv).
Proof.
  destruct argv as [|prog [|a args]];
    [apply path_no_arguments; cbn; lia..|].
  destruct (proj1 (parse_flags_cases (a :: args) init_flags))
    as [(pre & rest & st & Hargv & Hpre & Hrun & Hrest)|(t & Hrun & Ht)].
  - rewrite Hargv in *.
    destruct Hrest as [->|(sub & rest' & -> & Hsub)].
    + assert (Hne : pre ++ [] <> []) by now rewrite <- Hargv.
      rewrite (main_parse prog pre [] (Proceed st []) [] Hrun Hne).
      apply (path_no_subcommand _ prog (pre ++ []) st);
        [reflexivity|assumption|now rewrite app_nil_r].
    + destruct (Z.eq_dec (secvarctl_mode st) (-1)) as [Hm|Hm].
      * rewrite (main_mode_unset prog pre st sub rest' Hpre Hm Hsub).
        now apply (path_no_mode _ prog pre st sub rest').
      * assert (Hsel : selects (prog :: pre ++ sub :: rest') prog pre st sub
                         rest') by (repeat split; assumption).
        destruct (resolve_backend st) as [ts [[b|]|]] eqn:Hr.
        -- rewrite (main_dispatch prog pre st sub rest' ts b) by assumption.
           destruct (first_command_match_dec (commands b) sub)
             as [(c & after & Hc)|Hn].
           ++ rewrite (dispatch_match _ _ _ _ _ _ Hc). unfold trace, result.
              cbn [fst snd]. now apply (path_handler _ prog pre st sub rest'
                                           ts b c after).
           ++ rewrite (dispatch_no_match _ _ _ _ Hn). unfold trace, result.
              cbn [fst snd].
              now apply (path_unknown_command _ prog pre st sub rest' ts b).
        -- rewrite (main_no_backend prog pre st sub rest' ts) by assumption.
           now apply (path_mode_disabled _ prog pre st sub rest').
        -- rewrite (main_fault prog pre st sub rest' ts) by assumption.
           now apply (path_fault _ prog pre st sub rest').
  - change (prog :: a :: args) with (prog :: [] ++ a :: args).
    rewrite (main_parse prog [] (a :: args) (Return SUCCESS) t Hrun)
      by discriminate.
    unfold bind. cbn. rewrite app_nil_r.
    apply (path_flag_return _ prog (a :: args) t);
      [reflexivity|discriminate|assumption].
Qed.

(** ** Counting events *)

Lemma occurrences_app p t1 t2 :
  occurrences p (t1 ++ t2) = (occurrences p t1 + occurrences p t2)%nat.
Proof. unfold occurrences. now rewrite filter_app, length_app. Qed.

Lemma occurrences_bind {A B} p (m : M A) (f : A -> M B) a b :
  (occurrences p (trace m) <= a)%nat ->
  (forall x, (occurrences p (trace (f x)) <= b)%nat) ->
  (occurrences p (trace (bind m f)) <= a + b)%nat.
Proof.
  intros Hm Hf. unfold bind, trace in *.
  destruct m as [t [x|]]; simpl in *.
  - rewrite occurrences_app. specialize (Hf x). lia.
  - lia.
Qed.

Lemma calls_cons e t :
  calls (e :: t) = ((if is_call e then 1 else 0) + calls t)%nat.
Proof. unfold calls. cbn [filter]. now destruct (is_call e). Qed.

Lemma quiet_has_no_call t e : calls t = O -> In e t -> is_call e = false.
Proof.
  induction t as [|x t IH]; [intros _ []|].
  intros Hq [<-|Hin]; rewrite calls_cons in Hq.
  - destruct (is_call x); [discriminate|reflexivity].
  - apply IH; [|assumption]. destruct (is_call x); [discriminate|exact Hq].
Qed.

(** A trace with one handler call splits at that call in one way only. *)
Lemma call_split_unique a e b :
  forall a' e' b',
    calls a = O -> calls b = O ->
    is_call e = true -> is_call e' = true ->
    a ++ e :: b = a' ++ e' :: b' ->
    a = a' /\ e = e' /\ b = b'.
Proof.
  induction a as [|x a IH]; intros [|x' a'] e' b' Ha Hb He He' E;
    cbn [app] in E.
  - now injection E as -> ->.
  - injection E as -> ->. rewrite calls_app, calls_cons, He' in Hb. lia.
  - injection E as -> _. rewrite calls_cons, He' in Ha. lia.
  - injection E as -> E. rewrite calls_cons in Ha.
    destruct (IH a' e' b') as (-> & -> & ->); try assumption; [lia|].
    now repeat split.
Qed.

Lemma exit_report_quiet t :
  exit_report t ->
  calls t = O /\
  occurrences is_file_check t = O /\ occurrences is_file_read t = O.
Proof.
  intros [ -> | [ -> | [ [arg -> ] | -> ] ] ]; now repeat split.
Qed.

(** ** The probe and the fallback, every case *)

Lemma first_prefix_match_in bs buff b :
  first_prefix_match bs buff b -> In b bs.
Proof.
  intros (before & after & -> & _). apply in_or_app. right. now left.
Qed.

Lemma first_command_match_in cmds sub c after :
  first_command_match cmds sub c after -> In c cmds.
Proof.
  intros (before & -> & _). apply in_or_app. right. now left.
Qed.

Lemma get_backend_cases :
  let path := secvar_format_location in
  let N := longest_name backends in
  (is_file path <> 0 /\
   get_backend =
   ([EIsFile path; EPrlog PR_WARNING MNoSecvarSupport], Some None)) \/
  (is_file path = 0 /\ backends = [] /\
   get_backend = ([EIsFile path], None)) \/
  (is_file path = 0 /\ backends <> [] /\
   get_data_from_file path N = None /\
   get_backend =
   ([EIsFile path; EGetData path N; EPrlog PR_WARNING (MNoData path)],
    Some None)) \/
  (exists buff b,
      is_file path = 0 /\ backends <> [] /\
      get_data_from_file path N = Some buff /\
      first_prefix_match backends buff b /\
      get_backend =
      ([EIsFile path; EGetData path N; ELookup buff;
        EPrlog PR_NOTICE (MFoundBackend (name b))]
       ++ (if BACKEND_FOUND =? 0
           then [EPrlog PR_WARNING (MUnknownFormat path)] else []),
       Some (Some b))) \/
  (exists buff,
      is_file path = 0 /\ backends <> [] /\
      get_data_from_file path N = Some buff /\
      (forall b, In b backends -> ~ begins_with buff (name b)) /\
      get_backend =
      ([EIsFile path; EGetData path N; ELookup buff]
       ++ (if UNKNOWN_BACKEND =? 0
           then [EPrlog PR_WARNING (MUnknownFormat path)] else []),
       Some None)).
Proof.
  intros path N.
  destruct (Z.eq_dec (is_file path) 0) as [E|E];
    [|left; split; [assumption|now apply get_backend_no_file]].
  assert (Hdec : backends = [] \/ backends <> [])
    by (destruct backends; [now left|right; discriminate]).
  destruct Hdec as [Hb|Hne];
    [right; left; repeat split; try assumption;
     now apply get_backend_empty_registry|].
  destruct (get_data_from_file path N) as [buff|] eqn:Hd.
  - destruct (first_prefix_match_dec backends buff) as [[b Hm]|Hm].
    + do 3 right. left. exists buff, b. repeat split; try assumption.
      rewrite (get_backend_data buff) by assumption.
      rewrite (is_known_backend_found _ _ Hm). unfold bind, trace, result.
      cbn. now destruct (BACKEND_FOUND =? 0).
    + do 4 right. exists buff. repeat split; try assumption.
      rewrite (get_backend_data buff) by assumption.
      rewrite (is_known_backend_unknown _ Hm). unfold bind, trace, result.
      cbn. now destruct (UNKNOWN_BACKEND =? 0).
  - right; right; left. repeat split; try assumption.
    now apply get_backend_no_data.
Qed.

Lemma get_backend_io p :
  p = is_file_check \/ p = is_file_read ->
  (occurrences p (trace get_backend) <= 1)%nat.
Proof.
  intros Hp.
  destruct get_backend_cases
    as [[_ ->]|[(_ & _ & ->)|[(_ & _ & _ & ->)
       |[(buff & b & _ & _ & _ & _ & ->)|(buff & _ & _ & _ & _ & ->)]]]];
    unfold trace; cbn [fst];
    try destruct (BACKEND_FOUND =? 0); try destruct (UNKNOWN_BACKEND =? 0);
    destruct Hp as [->| ->]; cbn; lia.
Qed.

Lemma is_known_backend_io p buff :
  p = is_file_check \/ p = is_file_read ->
  occurrences p (trace (is_known_backend buff)) = O.
Proof.
  intros Hp.
  destruct (is_known_backend_cases buff) as [(b & _ & ->)|[_ ->]];
    destruct Hp as [->| ->]; reflexivity.
Qed.

Lemma resolve_backend_io p st :
  p = is_file_check \/ p = is_file_read ->
  (occurrences p (trace (resolve_backend st)) <= 1)%nat.
Proof.
  intros Hp. unfold resolve_backend.
  apply (occurrences_bind p _ _ 1 0); [now apply get_backend_io|].
  intros [b|]; [destruct Hp as [->| ->]; cbn; lia|].
  destruct (backend_name st); [|destruct Hp as [->| ->]; cbn; lia].
  apply (occurrences_bind p _ _ 0 0);
    [now rewrite is_known_backend_io|].
  intros r. destruct (negb _); [destruct (snd r)|];
    destruct Hp as [->| ->]; cbn; lia.
Qed.

Lemma get_backend_registered tp b :
  get_backend = (tp, Some (Some b)) -> In b backends.
Proof.
  intros H.
  destruct get_backend_cases
    as [[_ E]|[(_ & _ & E)|[(_ & _ & _ & E)
       |[(buff & b' & _ & _ & _ & Hm & E)|(buff & _ & _ & _ & _ & E)]]]];
    rewrite E in H; try discriminate.
  injection H as _ <-. exact (first_prefix_match_in _ _ _ Hm).
Qed.

Lemma resolve_backend_registered st ts b :
  resolve_backend st = (ts, Some (Some b)) -> In b backends.
Proof.
  unfold resolve_backend.
  destruct get_backend as [tp [[b'|]|]] eqn:Hg; unfold bind; cbn [fst snd].
  - intros H. injection H as _ <-. exact (get_backend_registered _ _ Hg).
  - destruct (backend_name st) as [bn|]; [|discriminate].
    destruct (is_known_backend_cases bn) as [(b' & Hm & ->)|[_ ->]];
      cbn [fst snd]; destruct (negb _); cbn; try discriminate.
    intros H. injection H as _ <-. exact (first_prefix_match_in _ _ _ Hm).
  - discriminate.
Qed.

(** The [return SUCCESS] of the fallback comes with its warning. *)
Lemma resolve_backend_none_warns st ts :
  resolve_backend st = (ts, Some None) ->
  exists m, In (EPrlog PR_WARNING (MModeNotEnabled m)) ts.
Proof.
  unfold resolve_backend.
  destruct get_backend as [tp [[b'|]|]] eqn:Hg; unfold bind; cbn [fst snd];
    try discriminate.
  destruct (backend_name st) as [bn|]; [|discriminate].
  destruct (is_known_backend_cases bn) as [(b' & Hm & ->)|[_ ->]];
    cbn [fst snd]; destruct (negb _); cbn; try discriminate;
    intros H; injection H as <-; eexists; apply in_or_app; right;
    cbn; eauto 10.
Qed.

Lemma resolve_backend_safe st :
  UNKNOWN_BACKEND = 0 ->
  backends <> [] \/ is_file secvar_format_location <> 0 ->
  backend_name st <> None ->
  exists r, result (resolve_backend st) = Some r.
Proof.
  intros Hu Hreg Hn. unfold resolve_backend.
  destruct get_backend_cases
    as [[_ E]|[(Hf & Hb & E)|[(_ & _ & _ & E)
       |[(buff & b' & _ & _ & _ & _ & E)|(buff & _ & _ & _ & _ & E)]]]];
    rewrite E; unfold bind, result; cbn [fst snd];
    try (destruct Hreg; congruence); try (eexists; reflexivity);
    (destruct (backend_name st) as [bn|]; [|congruence]);
    (destruct (is_known_backend_cases bn) as [(b & _ & ->)|[_ ->]];
     cbn [fst snd]; [destruct (negb _); cbn; eauto|]);
    rewrite Hu; cbn; eauto.
Qed.

(** ** More on [main] *)

(** X5. With [UNKNOWN_BACKEND = 0], [main] runs into undefined behaviour
    on no argument vector as long as a backend is registered or the status
    file is absent: [backend_name] and [backend] are never NULL where they
    are dereferenced. With an empty registry and the status file present,
    every run that gets as far as choosing a backend stops at the read of
    [backends[0]]. *)
Theorem main_faults_only_on_empty_registry :
  UNKNOWN_BACKEND = 0 ->
  (backends <> [] \/ is_file secvar_format_location <> 0 ->
   forall argv, exists rc, result (main argv) = Some rc) /\
  (backends = [] -> is_file secvar_format_location = 0 ->
   forall prog pre st sub rest,
     consumes init_flags pre st -> secvarctl_mode st <> -1 ->
     ~ flag_token sub ->
     main (prog :: pre ++ sub :: rest) =
     ([EIsFile secvar_format_location], None)).
Proof.
  intros Hu. split.
  - intros Hreg argv.
    destruct (main_exit_path argv)
      as [|? ? ? _ _ _|? ? ? _ _ _|? ? ? ? ? _ _ _ _
          |prog pre st sub rest ts (_ & Hc & _ & Hm) Hr| | |];
      unfold result; cbn [snd]; eauto.
    destruct (resolve_backend_safe st Hu Hreg) as [r Hres].
    + rewrite (requested_backend_name st
                 (consumes_invariant _ _ _ Hc init_invariant) Hm).
      discriminate.
    + rewrite Hr in Hres. discriminate.
  - intros Hb Hf prog pre st sub rest Hc Hm Hs.
    apply main_fault with (st := st); try assumption.
    unfold resolve_backend.
    now rewrite (get_backend_empty_registry Hf Hb).
Qed.

(** X6. Whenever [main] calls a handler, the vector it passes is a tail
    of the command line, unchanged, with the subcommand first, and [argc]
    is its length; the handler is that of a command of a registered
    backend whose name agrees with the subcommand over 32 characters; and
    the status of the handler is the exit status of [main]. *)
Theorem handler_call_anatomy argv n argc args :
  In (ECall n argc args) (trace (main argv)) ->
  (exists skipped, argv = skipped ++ args) /\
  argc = Z.of_nat (List.length args) /\
  exists b c sub rest,
    args = sub :: rest /\ ~ flag_token sub /\
    In b backends /\ In c (commands b) /\ n = cmd_name c /\
    same_upto 32 sub (cmd_name c) /\
    result (main argv) = Some (func c argc args).
Proof.
  destruct (main_exit_path argv)
    as [|? ? ? _ _ Ht|? ? ? _ _ _|? ? ? ? ? _ _ _ _
        |? ? ? ? ? ts _ Hr|? ? ? ? ? ts _ Hr|? ? ? ? ? ts ? _ Hr _
        |prog pre st sub rest ts b c after (Hargv & Hc & Hs & Hm) Hr Hf];
    unfold trace, result; cbn [fst snd]; intros Hin.
  1-7: exfalso;
    try (apply exit_report_quiet in Ht; destruct Ht as [Ht _];
         apply (quiet_has_no_call _ _ Ht) in Hin; discriminate);
    try (pose proof (resolve_backend_quiet st) as Hq; rewrite Hr in Hq;
         try (apply in_app_or in Hin; destruct Hin as [Hin|Hin]);
         [apply (quiet_has_no_call _ _ Hq) in Hin; discriminate|..]);
    cbn in Hin; repeat (destruct Hin as [Hin|Hin]; [discriminate|]);
    try contradiction.
  pose proof (resolve_backend_quiet st) as Hq. rewrite Hr in Hq.
  apply in_app_or in Hin. destruct Hin as [Hin|[Hin|Hin]].
  - apply (quiet_has_no_call _ _ Hq) in Hin. discriminate.
  - injection Hin as <- <- <-. split; [|split; [reflexivity|]].
    + exists (prog :: pre). rewrite Hargv. now rewrite <- app_comm_cons.
    + exists b, c, sub, rest. repeat split; try assumption.
      * exact (resolve_backend_registered _ _ _ Hr).
      * exact (first_command_match_in _ _ _ _ Hf).
      * now destruct Hf as (before & _ & Hsame & _).
  - exfalso. destruct (_ =? UNKNOWN_COMMAND); cbn in Hin;
      repeat (destruct Hin as [Hin|Hin]; [discriminate|]); contradiction.
Qed.

(** X7. Once the handler has returned, [main] does nothing more, except
    for the unknown-command error and the usage text when the status is
    [UNKNOWN_COMMAND]; and nothing before the call is a handler call. In
    particular the status file is tested and read before the handler
    runs, never after. *)
Theorem handler_call_comes_last argv t1 n argc args t2 :
  trace (main argv) = t1 ++ ECall n argc args :: t2 ->
  calls t1 = O /\
  occurrences is_file_check t2 = O /\ occurrences is_file_read t2 = O /\
  (t2 = [] \/
   exists sub,
     t2 = [EPrlog PR_ERR (MUnknownCommand sub); EUsage] /\
     result (main argv) = Some UNKNOWN_COMMAND).
Proof.
  assert (Hcall : forall t, t = t1 ++ ECall n argc args :: t2 ->
                            calls t <> O).
  { intros t ->. rewrite calls_app, calls_cons. cbn. lia. }
  destruct (main_exit_path argv)
    as [|? ? ? _ _ Ht|? ? ? _ _ _|? ? ? ? ? _ _ _ _
        |? ? ? ? ? ts _ Hr|? ? ? ? ? ts _ Hr|? ? ? ? ? ts ? _ Hr _
        |prog pre st sub rest ts b c after _ Hr Hf];
    unfold trace, result; cbn [fst snd]; intros E.
  1-7: exfalso; apply (Hcall _ E); clear Hcall E;
    try (pose proof (resolve_backend_quiet st) as Hq; rewrite Hr in Hq;
         unfold trace in Hq; cbn [fst] in Hq);
    try rewrite calls_app; try rewrite Hq;
    try (now apply exit_report_quiet); reflexivity.
  pose proof (resolve_backend_quiet st) as Hq. rewrite Hr in Hq.
  unfold trace in Hq. cbn [fst] in Hq.
  destruct (func c _ _ =? UNKNOWN_COMMAND) eqn:Hrc;
    apply call_split_unique in E; try reflexivity; try assumption;
    destruct E as (<- & _ & <-); repeat split; try assumption;
    try reflexivity.
  - right. exists sub. split; [reflexivity|].
    apply Z.eqb_eq in Hrc. now rewrite Hrc.
  - now left.
Qed.

(** X8. A run of [main] that calls no handler and returns ends with one
    of the three statuses of [main] itself, and tells the user why: it
    prints the usage text, or it warns that the requested mode is not
    enabled (and then the status is [SUCCESS]). *)
Theorem exit_status_without_handler argv rc :
  calls (trace (main argv)) = O ->
  result (main argv) = Some rc ->
  (rc = SUCCESS \/ rc = ARG_PARSE_FAIL \/ rc = UNKNOWN_COMMAND) /\
  (In EUsage (trace (main argv)) \/
   rc = SUCCESS /\
   exists m, In (EPrlog PR_WARNING (MModeNotEnabled m)) (trace (main argv))).
Proof.
  destruct (main_exit_path argv)
    as [|? ? ? _ _ Ht|? ? ? _ _ _|? ? ? ? ? _ _ _ _
        |? ? ? ? ? ts _ Hr|? ? ? ? ? ts _ Hr|? ? ? ? ? ts ? _ Hr _
        |prog pre st sub rest ts b c after _ Hr Hf];
    unfold trace, result; cbn [fst snd]; intros Hq Hres;
    try discriminate; injection Hres as <-.
  - split; [auto|]. left. now left.
  - split; [auto|]. left.
    destruct Ht as [ -> | [ -> | [ [arg -> ] | -> ] ] ]; cbn; auto.
  - split; [auto|]. left. cbn. auto.
  - split; [auto|]. left. now left.
  - split; [auto|]. right. split; [reflexivity|].
    exact (resolve_backend_none_warns _ _ Hr).
  - split; [auto|]. left. apply in_or_app. right. cbn. auto.
  - exfalso. rewrite calls_app, calls_cons in Hq. cbn in Hq. lia.
Qed.

(** X9. In a run of [main] the status file is tested at most once and
    read at most once. *)
Theorem status_file_read_at_most_once argv :
  (occurrences is_file_check (trace (main argv)) <= 1)%nat /\
  (occurrences is_file_read (trace (main argv)) <= 1)%nat.
Proof.
  assert (H : forall p, p = is_file_check \/ p = is_file_read ->
                        (occurrences p (trace (main argv)) <= 1)%nat).
  { intros p Hp.
    destruct (main_exit_path argv)
      as [|? ? ? _ _ Ht|? ? ? _ _ _|? ? ? ? ? _ _ _ _
          |? ? ? ? ? ts _ Hr|? ? ? ? ? ts _ Hr|? ? ? ? ? ts ? _ Hr _
          |prog pre st sub rest ts b c after _ Hr Hf];
      unfold trace; cbn [fst];
      try (pose proof (resolve_backend_io p st Hp) as Hio;
           rewrite Hr in Hio; unfold trace in Hio; cbn [fst] in Hio;
           try rewrite occurrences_app;
           try destruct (_ =? UNKNOWN_COMMAND));
      try (apply exit_report_quiet in Ht; destruct Ht as (_ & Hc & Hd));
      destruct Hp as [->| ->]; cbn; try lia. }
  split; apply H; [now left|now right].
Qed.

(** X10. The probe returns a backend only when the status file exists and
    holds data, and then the backend is the first registered one whose
    name the data begins with: it is never a backend outside the
    registry. *)
Theorem probe_returns_registered_backend b :
  result get_backend = Some (Some b) ->
  is_file secvar_format_location = 0 /\
  In b backends /\
  exists buff,
    get_data_from_file secvar_format_location (longest_name backends) =
    Some buff /\
    first_prefix_match backends buff b.
Proof.
  destruct get_backend_cases
    as [[_ ->]|[(_ & _ & ->)|[(_ & _ & _ & ->)
       |[(buff & b' & Hf & _ & Hd & Hm & ->)|(buff & _ & _ & _ & _ & ->)]]]];
    unfold result; cbn [snd]; try discriminate.
  intros H. injection H as <-. split; [assumption|].
  split; [exact (first_prefix_match_in _ _ _ Hm)|]. now exists buff.
Qed.

(** X11. When the probe finds a backend, the mode the user asked for
    plays no part: [main] dispatches on the probed backend, and two command
    lines that differ only in the mode they request (and leave the same
    verbosity) give the same run. *)
Theorem probed_backend_overrides_mode prog pre1 pre2 st1 st2 sub args tp b :
  consumes init_flags pre1 st1 -> consumes init_flags pre2 st2 ->
  secvarctl_mode st1 <> -1 -> secvarctl_mode st2 <> -1 ->
  verbose st1 = verbose st2 ->
  ~ flag_token sub ->
  get_backend = (tp, Some (Some b)) ->
  main (prog :: pre1 ++ sub :: args) = main (prog :: pre2 ++ sub :: args) /\
  exists t r,
    main (prog :: pre1 ++ sub :: args) = (tp ++ t, r) /\
    dispatch b sub (Z.of_nat (List.length (sub :: args))) (sub :: args) =
    (t, r).
Proof.
  intros H1 H2 Hm1 Hm2 _ Hs Hp.
  rewrite (main_dispatch prog pre1 st1 sub args tp b H1 Hm1 Hs
             (resolve_backend_probed st1 tp b Hp)).
  rewrite (main_dispatch prog pre2 st2 sub args tp b H2 Hm2 Hs
             (resolve_backend_probed st2 tp b Hp)).
  split; [reflexivity|].
  destruct (dispatch b sub _ (sub :: args)) as [t r]. now exists t, r.
Qed.

(** ** What the flags leave behind *)

Lemma mode_flag_is_not_verbose tok : is_mode_flag tok -> ~ is_verbose_flag tok.
Proof. intros [H|H] [H'|H']; rewrite H in H'; discriminate. Qed.

Lemma mode_name_is_no_flag arg :
  cstr arg = "host" \/ cstr arg = "guest" ->
  ~ is_verbose_flag arg /\ ~ is_mode_flag arg.
Proof.
  intros [H|H]; split; intros [H'|H']; rewrite H in H'; discriminate.
Qed.

Lemma consumes_verbosity st pre st' :
  consumes st pre st' ->
  ((exists tok, In tok pre /\ is_verbose_flag tok) ->
   verbose st' = PR_DEBUG) /\
  ((forall tok, In tok pre -> ~ is_verbose_flag tok) ->
   verbose st' = verbose st) /\
  (verbose st = PR_DEBUG -> verbose st' = PR_DEBUG).
Proof.
  induction 1 as [st|st tok l st' Hv _ IH|st tok arg l st' Hm Ha _ IH
                 |st tok arg l st' Hm Ha _ IH].
  - split; [intros (tok & [] & _)|]. now split.
  - destruct IH as (_ & _ & IH3). cbn [verbose] in IH3.
    split; [intros _; now apply IH3|].
    split; [|intros _; now apply IH3].
    intros Hn. exfalso. apply (Hn tok); [now left|assumption].
  - destruct IH as (IH1 & IH2 & IH3). cbn [verbose] in *.
    destruct (mode_name_is_no_flag arg (or_intror Ha)) as [Hav _].
    pose proof (mode_flag_is_not_verbose tok Hm) as Htv.
    split; [|split; [|exact IH3]].
    + intros (t & [<-|[<-|Hin]] & Ht); try contradiction.
      apply IH1. now exists t.
    + intros Hn. apply IH2. intros t Hin. apply Hn. now do 2 right.
  - destruct IH as (IH1 & IH2 & IH3). cbn [verbose] in *.
    destruct (mode_name_is_no_flag arg (or_introl Ha)) as [Hav _].
    pose proof (mode_flag_is_not_verbose tok Hm) as Htv.
    split; [|split; [|exact IH3]].
    + intros (t & [<-|[<-|Hin]] & Ht); try contradiction.
      apply IH1. now exists t.
    + intros Hn. apply IH2. intros t Hin. apply Hn. now do 2 right.
Qed.

Lemma consumes_mode st pre st' :
  consumes st pre st' ->
  ((exists tok, In tok pre /\ is_mode_flag tok) ->
   secvarctl_mode st' <> -1) /\
  ((forall tok, In tok pre -> ~ is_mode_flag tok) ->
   secvarctl_mode st' = secvarctl_mode st) /\
  (secvarctl_mode st <> -1 -> secvarctl_mode st' <> -1).
Proof.
  induction 1 as [st|st tok l st' Hv _ IH|st tok arg l st' Hm Ha _ IH
                 |st tok arg l st' Hm Ha _ IH].
  - split; [intros (tok & [] & _)|]. now split.
  - destruct IH as (IH1 & IH2 & IH3). cbn [secvarctl_mode] in *.
    split; [|split; [|exact IH3]].
    + intros (t & [<-|Hin] & Ht).
      * exfalso. exact (mode_flag_is_not_verbose _ Ht Hv).
      * apply IH1. now exists t.
    + intros Hn. apply IH2. intros t Hin. apply Hn. now right.
  - destruct IH as (_ & _ & IH3). cbn [secvarctl_mode] in IH3.
    assert (Hset : secvarctl_mode st' <> -1) by (apply IH3; discriminate).
    split; [intros _; exact Hset|]. split; [|intros _; exact Hset].
    intros Hn. exfalso. apply (Hn tok); [now left|assumption].
  - destruct IH as (_ & _ & IH3). cbn [secvarctl_mode] in IH3.
    assert (Hset : secvarctl_mode st' <> -1) by (apply IH3; discriminate).
    split; [intros _; exact Hset|]. split; [|intros _; exact Hset].
    intros Hn. exfalso. apply (Hn tok); [now left|assumption].
Qed.

(** X14. When the flag loop falls out, the global [verbose] is [PR_DEBUG]
    if [-v] or [--verbose] was among the flags read, and is what it was
    before if none was: the verbosity is raised by these two flags only,
    and never lowered. *)
Theorem verbose_flag_raises_verbosity st argv st' rest :
  result (parse_flags st argv) = Some (Proceed st' rest) ->
  exists pre,
    argv = pre ++ rest /\
    ((exists tok, In tok pre /\ is_verbose_flag tok) ->
     verbose st' = PR_DEBUG) /\
    ((forall tok, In tok pre -> ~ is_verbose_flag tok) ->
     verbose st' = verbose st) /\
    (verbose st = PR_DEBUG -> verbose st' = PR_DEBUG).
Proof.
  intros H.
  destruct (proj1 (parse_flags_cases argv st))
    as [(pre & rest' & st'' & Hargv & Hpre & Hrun & Hrest)|(t & Hrun & _)];
    rewrite Hrun in H; cbn in H; [|discriminate].
  injection H as <- <-. exists pre. split; [assumption|].
  now apply consumes_verbosity.
Qed.

(** X15. When the flag loop of [main] falls out, the mode and the backend
    name agree: both unset ([-1] and NULL), or [0] with the host name, or
    [1] with the guest name. The mode is unset exactly when no [-m] or
    [--mode] was among the flags read. *)
Theorem mode_is_set_by_mode_flags_only argv st' rest :
  result (parse_flags init_flags argv) = Some (Proceed st' rest) ->
  mode_invariant st' /\
  exists pre,
    argv = pre ++ rest /\
    (secvarctl_mode st' = -1 <->
     forall tok, In tok pre -> ~ is_mode_flag tok).
Proof.
  intros H.
  destruct (proj1 (parse_flags_cases argv init_flags))
    as [(pre & rest' & st'' & Hargv & Hpre & Hrun & Hrest)|(t & Hrun & _)];
    rewrite Hrun in H; cbn in H; [|discriminate].
  injection H as <- <-.
  split; [exact (consumes_invariant _ _ _ Hpre init_invariant)|].
  exists pre. split; [assumption|].
  destruct (consumes_mode _ _ _ Hpre) as (H1 & H2 & _).
  split.
  - intros Hunset tok Hin Hm. apply H1; [|assumption]. now exists tok.
  - intros Hn. now rewrite (H2 Hn).
Qed.

(** ** Short command names *)

Lemma take_short_eq n :
  forall x a,
    (String.length a < n)%nat -> (take n x = take n a <-> x = a).
Proof.
  unfold take. induction n as [|n IH]; intros x a Hlen; [lia|].
  destruct x as [|cx x], a as [|ca a]; cbn [substring String.length] in *.
  - now split.
  - split; discriminate.
  - split; discriminate.
  - split; intros H; injection H as -> H.
    + f_equal. apply (IH x a); [lia|assumption].
    + f_equal. apply (IH x a); [lia|assumption].
Qed.

Lemma same_upto_short sub nm :
  (strlen nm < 32)%nat -> (same_upto 32 sub nm <-> cstr sub = cstr nm).
Proof.
  intros H. rewrite strlen_cstr in H. unfold same_upto.
  now apply take_short_eq.
Qed.

(** X16. On a command table whose names are shorter than 32 characters
    the comparison over 32 characters is a comparison of whole names: the
    dispatch loop calls the first command whose name is the subcommand,
    and no command for a subcommand that is only the beginning of a name or
    goes on after one. *)
Theorem dispatch_is_exact_on_short_names cmds sub argc argv :
  Forall (fun c => (strlen (cmd_name c) < 32)%nat) cmds ->
  command_loop cmds sub argc argv =
  match find (fun c => (cstr sub =? cstr (cmd_name c))%string) cmds with
  | Some c => ([ECall (cmd_name c) argc argv], Some (func c argc argv))
  | None => ([], Some UNKNOWN_COMMAND)
  end.
Proof.
  induction 1 as [|c cmds Hc _ IH]; cbn [command_loop find]; [reflexivity|].
  destruct (String.eqb_spec (cstr sub) (cstr (cmd_name c))) as [E|E].
  - apply (same_upto_short sub _ Hc), strncmp_zero_iff, Z.eqb_eq in E.
    now rewrite E.
  - assert (E' : strncmp sub (cmd_name c) 32 <> 0).
    { intros H. apply E, (same_upto_short sub _ Hc), strncmp_zero_iff, H. }
    apply Z.eqb_neq in E'. now rewrite E'.
Qed.

End Program.

(** ** The claims on the registry *)

(** C5. The lookup succeeds on a candidate exactly when the candidate
    begins with the name of some registered backend, and then returns the
    first such backend in the order of the registry; it fails exactly when
    the candidate begins with no registered name. On the registry of every
    build (host only, guest only, or both), looking up the name of a
    registered backend returns that backend. *)
Theorem lookup_is_first_prefix_match (BACKEND_FOUND UNKNOWN_BACKEND : Z) :
  (forall backends buff b,
      (exists t, is_known_backend BACKEND_FOUND UNKNOWN_BACKEND backends buff =
                 (t, Some (BACKEND_FOUND, Some b))) <->
      first_prefix_match backends buff b) /\
  (forall backends buff,
      (exists t, is_known_backend BACKEND_FOUND UNKNOWN_BACKEND backends buff =
                 (t, Some (UNKNOWN_BACKEND, None))) <->
      (forall b, In b backends -> ~ begins_with buff (name b))) /\
  (forall host guest host_table guest_table b,
      In b (registry host guest host_table guest_table) ->
      is_known_backend BACKEND_FOUND UNKNOWN_BACKEND
        (registry host guest host_table guest_table) (name b) =
      ([ELookup (name b); EPrlog PR_NOTICE (MFoundBackend (name b))],
       Some (BACKEND_FOUND, Some b))).
Proof.
  split; [|split].
  - intros backends buff b. split.
    + intros [t Ht].
      destruct (is_known_backend_cases BACKEND_FOUND UNKNOWN_BACKEND
                  backends buff) as [(b' & Hb' & E)|[_ E]];
        rewrite E in Ht; [|discriminate].
      now injection Ht as _ <-.
    + intros H. eexists.
      apply is_known_backend_found, H.
  - intros backends buff. split.
    + intros [t Ht].
      destruct (is_known_backend_cases BACKEND_FOUND UNKNOWN_BACKEND
                  backends buff) as [(b' & Hb' & E)|[H _]];
        [rewrite E in Ht; discriminate|exact H].
    + intros H. eexists. apply is_known_backend_unknown, H.
  - intros [|] [|] host_table guest_table b; cbn [registry app In];
      intros H; repeat (destruct H as [<-|H]; [reflexivity|]);
      contradiction.
Qed.

(** C10. The probe is safe only with a backend registered. When the
    status file exists it reads the name of [backends[0]] before anything
    else: in a build with neither backend the registry is empty, the index
    is past its end and the run is undefined. In every non-empty registry
    entry 0 exists, the probe returns, and the size it passes to the read
    is the length of the longest registered name. *)
Theorem probe_needs_a_registered_backend
    (BACKEND_FOUND UNKNOWN_BACKEND : Z) (is_file : string -> Z)
    (get_data_from_file : string -> nat -> option string) :
  let probe :=
    get_backend BACKEND_FOUND UNKNOWN_BACKEND is_file get_data_from_file in
  (forall host_table guest_table,
      registry false false host_table guest_table = []) /\
  (is_file secvar_format_location = 0 ->
   nth_error (@nil backend) 0 = None /\
   probe [] = ([EIsFile secvar_format_location], None)) /\
  (forall backends,
      backends <> [] ->
      (exists b0, nth_error backends 0 = Some b0) /\
      (exists r, result (probe backends) = Some r) /\
      (is_file secvar_format_location = 0 ->
       In (EGetData secvar_format_location (longest_name backends))
          (trace (probe backends)))).
Proof.
  intros probe. split; [reflexivity|split].
  - intros H. split; [reflexivity|].
    now apply get_backend_empty_registry.
  - intros backends Hne. split.
    + destruct backends as [|b0 bs]; [congruence|]. now exists b0.
    + now apply get_backend_returns.
Qed.

(** ** The probe in the build without a backend *)

(** C4, at the build where the code misses it. [get_backend] is written
    to fail softly: its comment promises NULL when the file "could not be
    found or contained wrong contents", the lookup [is_known_backend]
    bounds its loop by the size of the array and is safe on an empty one,
    and [main] has a branch for a mode whose backend is not compiled in.
    But with neither backend compiled in and the status file present, the
    probe reads [backends[0].name] (line 127) ahead of the loop that would
    have found the longest name from [max_buff_size = 0] by itself. The
    read is past the end of the array: the probe, and with it [main], ends
    in undefined behaviour, not in a warning and NULL. *)
Theorem probe_faults_in_build_without_backend
    (SUCCESS ARG_PARSE_FAIL UNKNOWN_COMMAND BACKEND_FOUND UNKNOWN_BACKEND : Z)
    (get_data_from_file : string -> nat -> option string)
    (host_table guest_table : list command) :
  let backends := registry false false host_table guest_table in
  get_backend BACKEND_FOUND UNKNOWN_BACKEND file_present get_data_from_file
    backends =
    ([EIsFile secvar_format_location], None) /\
  (forall buff,
      is_known_backend BACKEND_FOUND UNKNOWN_BACKEND backends buff =
      ([ELookup buff], Some (UNKNOWN_BACKEND, None))) /\
  (forall bs, max_name_loop bs 0 = longest_name bs) /\
  main SUCCESS ARG_PARSE_FAIL UNKNOWN_COMMAND BACKEND_FOUND UNKNOWN_BACKEND
    file_present get_data_from_file backends
    ["secvarctl"; "-m"; "host"; "read"] =
    ([EIsFile secvar_format_location], None).
Proof.
  intros backends. split; [reflexivity|]. split; [reflexivity|].
  split; [|reflexivity]. intros bs. now rewrite max_name_loop_max.
Qed.

(** ** More on the registry of the builds *)

Lemma backend_names_differ s :
  begins_with s "ibm,edk2-compat-v1" -> begins_with s "ibm,plpks-sb-v1" ->
  False.
Proof.
  intros [r1 H1] [r2 H2]. rewrite H1 in H2. discriminate.
Qed.

Lemma registry_first_prefix_match host guest host_table guest_table b buff :
  In b (registry host guest host_table guest_table) ->
  begins_with buff (name b) ->
  first_prefix_match (registry host guest host_table guest_table) buff b.
Proof.
  destruct host, guest; cbn [registry app In]; intros Hin Hb;
    repeat (destruct Hin as [<-|Hin]); try contradiction.
  - exists [], [{| name := "ibm,plpks-sb-v1"; commands := guest_table |}].
    repeat split; [assumption|constructor].
  - exists [{| name := "ibm,edk2-compat-v1"; commands := host_table |}], [].
    repeat split; [assumption|].
    constructor; [|constructor]. intros Hh.
    exact (backend_names_differ buff Hh Hb).
  - exists [], []. repeat split; [assumption|constructor].
  - exists [], []. repeat split; [assumption|constructor].
Qed.

(** X12. No string begins with the names of both backends, so in every
    build the lookup does not depend on the order of the registry: a
    candidate that begins with the name of a registered backend (the name
    itself, or the name with anything after it) is resolved to that
    backend. *)
Theorem registry_lookup_is_unambiguous (BACKEND_FOUND UNKNOWN_BACKEND : Z) :
  (forall s,
      ~ (begins_with s HOST_BACKEND /\ begins_with s GUEST_BACKEND)) /\
  (forall host guest host_table guest_table b buff,
      In b (registry host guest host_table guest_table) ->
      begins_with buff (name b) ->
      is_known_backend BACKEND_FOUND UNKNOWN_BACKEND
        (registry host guest host_table guest_table) buff =
      ([ELookup buff; EPrlog PR_NOTICE (MFoundBackend (name b))],
       Some (BACKEND_FOUND, Some b))).
Proof.
  split.
  - intros s [Hh Hg]. exact (backend_names_differ s Hh Hg).
  - intros host guest host_table guest_table b buff Hin Hb.
    apply is_known_backend_found.
    now apply registry_first_prefix_match.
Qed.

(** X13. When the probe finds nothing, the requested mode is served
    exactly in the builds that have its backend: [-m host] dispatches on
    the host command table when the host backend is compiled in, and
    [-m guest] on the guest table when the guest backend is; otherwise
    [main] warns that the mode is not enabled and returns [SUCCESS]. The
    other backend of the build is never taken instead. *)
Theorem fallback_follows_the_build
    (SUCCESS ARG_PARSE_FAIL UNKNOWN_COMMAND BACKEND_FOUND UNKNOWN_BACKEND : Z)
    (is_file : string -> Z)
    (get_data_from_file : string -> nat -> option string)
    (host guest : bool) (host_table guest_table : list command)
    prog pre st sub args tp :
  BACKEND_FOUND <> 0 -> UNKNOWN_BACKEND = 0 ->
  consumes init_flags pre st -> secvarctl_mode st <> -1 ->
  ~ flag_token sub ->
  let backends := registry host guest host_table guest_table in
  let run :=
    main SUCCESS ARG_PARSE_FAIL UNKNOWN_COMMAND BACKEND_FOUND UNKNOWN_BACKEND
      is_file get_data_from_file backends (prog :: pre ++ sub :: args) in
  let host_mode := secvarctl_mode st =? 0 in
  let requested := if host_mode then HOST_BACKEND else GUEST_BACKEND in
  let b := {| name := requested;
              commands := if host_mode then host_table else guest_table |} in
  get_backend BACKEND_FOUND UNKNOWN_BACKEND is_file get_data_from_file
    backends = (tp, Some None) ->
  ((if host_mode then host else guest) = true ->
   run =
   ((tp ++ [ELookup requested;
            EPrlog PR_NOTICE (MFoundBackend requested);
            EPrlog PR_WARNING (MUnsupportedBackend requested)])
    ++ trace (dispatch UNKNOWN_COMMAND b sub
                (Z.of_nat (List.length (sub :: args))) (sub :: args)),
    result (dispatch UNKNOWN_COMMAND b sub
              (Z.of_nat (List.length (sub :: args))) (sub :: args)))) /\
  ((if host_mode then host else guest) = false ->
   run =
   (tp ++ [ELookup requested;
           EPrlog PR_WARNING
             (MModeNotEnabled (if host_mode then "host" else "guest"))],
    Some SUCCESS)).
Proof.
  intros Hf Hu Hc Hm Hs backends run host_mode requested b Hp.
  assert (Hn : backend_name st = Some requested).
  { apply requested_backend_name; [|assumption].
    exact (consumes_invariant _ _ _ Hc init_invariant). }
  split; intros He.
  - apply main_dispatch with (st := st); try assumption.
    change (MFoundBackend requested) with (MFoundBackend (name b)).
    change (MUnsupportedBackend requested)
      with (MUnsupportedBackend (name b)).
    apply resolve_backend_fallback; try assumption.
    subst b requested host_mode backends.
    destruct (secvarctl_mode st =? 0);
      (apply registry_first_prefix_match; [|now exists ""]);
      destruct host, guest; try discriminate; cbn; auto.
  - unfold run.
    rewrite (main_no_backend SUCCESS ARG_PARSE_FAIL UNKNOWN_COMMAND
               BACKEND_FOUND UNKNOWN_BACKEND is_file get_data_from_file
               backends prog pre st sub args _ Hc Hm Hs
               (resolve_backend_disabled BACKEND_FOUND UNKNOWN_BACKEND
                  is_file get_data_from_file backends st tp requested
                  Hu Hp Hn
                  ltac:(subst backends requested; unfold registry;
                        destruct host_mode, host, guest;
                        try discriminate; cbn;
                        intros b' Hin [r Hr];
                        repeat (destruct Hin as [<-|Hin]);
                        try contradiction; discriminate))).
    subst host_mode. now destruct (secvarctl_mode st =? 0).
Qed.

(** ** Sample runs

    The runs below take [SUCCESS = 0], [ARG_PARSE_FAIL = 1],
    [UNKNOWN_COMMAND = 2], [BACKEND_FOUND = 1] and [UNKNOWN_BACKEND = 0]. *)

Lemma consumes_mode_host :
  consumes init_flags ["-m"; "host"] host_flags.
Proof.
  apply consumes_host; [now left|reflexivity|apply consumes_nil].
Qed.

Lemma consumes_mode_guest :
  consumes init_flags ["--mode"; "guest"] guest_flags.
Proof.
  apply consumes_guest; [now right|reflexivity|apply consumes_nil].
Qed.

Lemma consumes_verbose_only : consumes init_flags ["-v"] verbose_flags.
Proof. apply consumes_verbose; [now left|apply consumes_nil]. Qed.

Lemma read_is_no_flag : ~ flag_token "read".
Proof. discriminate. Qed.

Lemma read_matches_first :
  first_command_match sample_host_table "read" sample_read [sample_write].
Proof.
  exists []. split; [reflexivity|]. split; [reflexivity|constructor].
Qed.

Lemma bogus_matches_nothing :
  Forall (fun c => ~ same_upto 32 "bogus" (cmd_name c)) sample_host_table.
Proof. repeat constructor; discriminate. Qed.

Lemma dispatch_invokes_first_match_witness :
  (filter is_call (trace (dispatch 2 sample_host "read" 2 ["read"; "-f"])) =
     [ECall "read" 2 ["read"; "-f"]] /\
   result (dispatch 2 sample_host "read" 2 ["read"; "-f"]) = Some 7) /\
  dispatch 2 sample_host "bogus" 1 ["bogus"] =
    ([EPrlog PR_ERR (MUnknownCommand "bogus"); EUsage], Some 2) /\
  main 0 1 2 1 0 file_present reads_host sample_backends
    ["secvarctl"; "-m"; "host"; "read"; "-f"] =
  ([EIsFile secvar_format_location;
    EGetData secvar_format_location 18;
    ELookup "ibm,edk2-compat-v1";
    EPrlog PR_NOTICE (MFoundBackend "ibm,edk2-compat-v1");
    ECall "read" 2 ["read"; "-f"]],
   Some 7).
Proof.
  split; [|split].
  - exact (proj1 (dispatch_invokes_first_match 0 1 2 1 0 file_present
                    reads_host sample_backends sample_host "read" ["-f"])
             sample_read [sample_write] read_matches_first).
  - exact (proj1 (proj2 (dispatch_invokes_first_match 0 1 2 1 0 file_present
                           reads_host sample_backends sample_host "bogus" []))
             bogus_matches_nothing).
  - refine (proj2 (proj2 (dispatch_invokes_first_match 0 1 2 1 0 file_present
                     reads_host sample_backends sample_host "read" ["-f"]))
              "secvarctl" ["-m"; "host"] host_flags
              [EIsFile secvar_format_location;
               EGetData secvar_format_location 18;
               ELookup "ibm,edk2-compat-v1";
               EPrlog PR_NOTICE (MFoundBackend "ibm,edk2-compat-v1")]
              consumes_mode_host _ read_is_no_flag _).
    + discriminate.
    + reflexivity.
Defined.

Lemma host_name_matches_first :
  first_prefix_match sample_backends HOST_BACKEND sample_host.
Proof.
  exists [], [sample_guest]. split; [reflexivity|].
  split; [now exists ""|constructor].
Qed.

Lemma guest_name_not_in_host_build b :
  In b host_only_backends -> ~ begins_with GUEST_BACKEND (name b).
Proof. intros [<-|[]] [rest H]. discriminate. Qed.

Lemma other_format_unknown b :
  In b sample_backends -> ~ begins_with "ibm,unknown" (name b).
Proof. intros [<-|[<-|[]]] [rest H]; discriminate. Qed.

Lemma sample_backends_not_empty : sample_backends <> [].
Proof. discriminate. Qed.

(** The handler of [write] returns [2], the sample value of
    [UNKNOWN_COMMAND]: a handler ran, and the unknown-command error and the
    usage text are printed all the same. *)
Lemma handler_unknown_command_status_is_reported :
  main 0 1 2 1 0 file_present reads_host sample_backends
    ["secvarctl"; "-m"; "host"; "write"] =
  ([EIsFile secvar_format_location;
    EGetData secvar_format_location 18;
    ELookup "ibm,edk2-compat-v1";
    EPrlog PR_NOTICE (MFoundBackend "ibm,edk2-compat-v1");
    ECall "write" 1 ["write"];
    EPrlog PR_ERR (MUnknownCommand "write");
    EUsage],
   Some 2) /\
  ~ silent_after_handler
      (trace (main 0 1 2 1 0 file_present reads_host sample_backends
                ["secvarctl"; "-m"; "host"; "write"])).
Proof.
  split; [reflexivity|]. intros H.
  destruct H as [Husage _]; [discriminate|].
  apply Husage. cbn. auto 10.
Qed.

Lemma handler_status_is_exit_status_witness :
  main 0 1 2 1 0 file_absent reads_nothing sample_backends
    ["secvarctl"; "--mode"; "guest"; "read"; "db"] =
  ([EIsFile secvar_format_location;
    EPrlog PR_WARNING MNoSecvarSupport;
    ELookup "ibm,plpks-sb-v1";
    EPrlog PR_NOTICE (MFoundBackend "ibm,plpks-sb-v1");
    EPrlog PR_WARNING (MUnsupportedBackend "ibm,plpks-sb-v1");
    ECall "read" 2 ["read"; "db"]],
   Some 7).
Proof.
  refine (handler_status_is_exit_status 0 1 2 1 0 file_absent reads_nothing
            sample_backends "secvarctl" ["--mode"; "guest"] guest_flags
            [EIsFile secvar_format_location;
             EPrlog PR_WARNING MNoSecvarSupport;
             ELookup "ibm,plpks-sb-v1";
             EPrlog PR_NOTICE (MFoundBackend "ibm,plpks-sb-v1");
             EPrlog PR_WARNING (MUnsupportedBackend "ibm,plpks-sb-v1")]
            sample_guest "read" ["db"] sample_read []
            consumes_mode_guest _ read_is_no_flag _ _).
  - discriminate.
  - reflexivity.
  - exists []. split; [reflexivity|]. split; [reflexivity|constructor].
Defined.

Lemma at_most_one_handler_call_witness :
  (calls (trace (main 0 1 2 1 0 file_present reads_host sample_backends
                   ["secvarctl"; "-m"; "host"; "write"])) <= 1)%nat /\
  command_loop 2 ([] ++ sample_read :: [sample_write; sample_read])
    "read" 1 ["read"] =
  command_loop 2 ([] ++ sample_read :: []) "read" 1 ["read"].
Proof.
  split.
  - exact (proj1 (at_most_one_handler_call 0 1 2 1 0 file_present reads_host
                    sample_backends)
             ["secvarctl"; "-m"; "host"; "write"]).
  - refine (proj2 (at_most_one_handler_call 0 1 2 1 0 file_present reads_host
                     sample_backends)
              [] sample_read [sample_write; sample_read] [] "read" 1
              ["read"] _).
    reflexivity.
Defined.

Lemma probe_not_found_falls_back_witness :
  main 0 1 2 1 0 file_present reads_host sample_backends
    ["secvarctl"; "-m"; "host"; "read"] =
  ([EIsFile secvar_format_location;
    EGetData secvar_format_location 18;
    ELookup "ibm,edk2-compat-v1";
    EPrlog PR_NOTICE (MFoundBackend "ibm,edk2-compat-v1");
    ECall "read" 1 ["read"]],
   Some 7) /\
  main 0 1 2 1 0 file_absent reads_nothing sample_backends
    ["secvarctl"; "-m"; "host"; "read"] =
  ([EIsFile secvar_format_location;
    EPrlog PR_WARNING MNoSecvarSupport;
    ELookup "ibm,edk2-compat-v1";
    EPrlog PR_NOTICE (MFoundBackend "ibm,edk2-compat-v1");
    EPrlog PR_WARNING (MUnsupportedBackend "ibm,edk2-compat-v1");
    ECall "read" 1 ["read"]],
   Some 7) /\
  main 0 1 2 1 0 file_absent reads_nothing host_only_backends
    ["secvarctl"; "--mode"; "guest"; "read"] =
  ([EIsFile secvar_format_location;
    EPrlog PR_WARNING MNoSecvarSupport;
    ELookup "ibm,plpks-sb-v1";
    EPrlog PR_WARNING (MModeNotEnabled "guest")],
   Some 0) /\
  calls (trace (main 0 1 2 1 0 file_absent reads_nothing host_only_backends
                  ["secvarctl"; "--mode"; "guest"; "read"])) = O.
Proof.
  assert (H10 : 1 <> 0) by discriminate.
  assert (Hhost : secvarctl_mode host_flags <> -1) by discriminate.
  assert (Hguest : secvarctl_mode guest_flags <> -1) by discriminate.
  split; [|split].
  - refine (proj1 (probe_not_found_falls_back 0 1 2 1 0 file_present
                     reads_host sample_backends "secvarctl" ["-m"; "host"]
                     host_flags "read" [] H10 eq_refl consumes_mode_host
                     Hhost read_is_no_flag)
              [EIsFile secvar_format_location;
               EGetData secvar_format_location 18;
               ELookup "ibm,edk2-compat-v1";
               EPrlog PR_NOTICE (MFoundBackend "ibm,edk2-compat-v1")]
              sample_host _).
    reflexivity.
  - refine (proj1 (proj2 (probe_not_found_falls_back 0 1 2 1 0 file_absent
                     reads_nothing sample_backends "secvarctl"
                     ["-m"; "host"] host_flags "read" [] H10 eq_refl
                     consumes_mode_host Hhost read_is_no_flag)
                    [EIsFile secvar_format_location;
                     EPrlog PR_WARNING MNoSecvarSupport] _)
              sample_host host_name_matches_first).
    reflexivity.
  - refine (proj2 (proj2 (probe_not_found_falls_back 0 1 2 1 0 file_absent
                     reads_nothing host_only_backends "secvarctl"
                     ["--mode"; "guest"] guest_flags "read" [] H10 eq_refl
                     consumes_mode_guest Hguest read_is_no_flag)
                    [EIsFile secvar_format_location;
                     EPrlog PR_WARNING MNoSecvarSupport] _)
              guest_name_not_in_host_build).
    reflexivity.
Defined.

Lemma probe_fails_softly_witness :
  get_backend 1 0 file_absent reads_host sample_backends =
    ([EIsFile secvar_format_location; EPrlog PR_WARNING MNoSecvarSupport],
     Some None) /\
  get_backend 1 0 file_present reads_nothing sample_backends =
    ([EIsFile secvar_format_location;
      EGetData secvar_format_location 18;
      EPrlog PR_WARNING (MNoData secvar_format_location)],
     Some None) /\
  get_backend 1 0 file_present reads_other sample_backends =
    ([EIsFile secvar_format_location;
      EGetData secvar_format_location 18;
      ELookup "ibm,unknown";
      EPrlog PR_WARNING (MUnknownFormat secvar_format_location)],
     Some None) /\
  (exists r,
      result (get_backend 1 0 file_present reads_host sample_backends) =
      Some r).
Proof.
  assert (H10 : 1 <> 0) by discriminate.
  split; [|split; [|split]].
  - refine (proj1 (proj2 (proj2 (probe_fails_softly 1 0 file_absent
              reads_host sample_backends eq_refl H10
              sample_backends_not_empty))) _).
    discriminate.
  - exact (proj1 (proj2 (proj2 (proj2 (probe_fails_softly 1 0 file_present
             reads_nothing sample_backends eq_refl H10
             sample_backends_not_empty)))) eq_refl eq_refl).
  - exact (proj2 (proj2 (proj2 (proj2 (probe_fails_softly 1 0 file_present
             reads_other sample_backends eq_refl H10
             sample_backends_not_empty)))) "ibm,unknown" eq_refl eq_refl
             other_format_unknown).
  - exact (proj1 (probe_fails_softly 1 0 file_present reads_host
             sample_backends eq_refl H10 sample_backends_not_empty)).
Defined.

Lemma lookup_is_first_prefix_match_witness :
  is_known_backend 1 0 sample_backends (name sample_guest) =
    ([ELookup (name sample_guest);
      EPrlog PR_NOTICE (MFoundBackend (name sample_guest))],
     Some (1, Some sample_guest)) /\
  (exists t,
      is_known_backend 1 0 sample_backends "ibm,plpks-sb-v1,extra" =
      (t, Some (1, Some sample_guest))) /\
  (exists t,
      is_known_backend 1 0 sample_backends "ibm,unknown" =
      (t, Some (0, None))).
Proof.
  split; [|split].
  - refine (proj2 (proj2 (lookup_is_first_prefix_match 1 0))
              true true sample_host_table sample_guest_table sample_guest _).
    right. left. reflexivity.
  - refine (proj2 (proj1 (lookup_is_first_prefix_match 1 0)
                     sample_backends "ibm,plpks-sb-v1,extra" sample_guest) _).
    exists [sample_host], []. split; [reflexivity|].
    split; [now exists ",extra"|].
    constructor; [|constructor]. intros [rest H]. discriminate.
  - exact (proj2 (proj1 (proj2 (lookup_is_first_prefix_match 1 0))
                    sample_backends "ibm,unknown") other_format_unknown).
Defined.

Lemma x_is_not_recognized : ~ recognized_flag "-x".
Proof.
  intros H. repeat (destruct H as [H|H]; [discriminate|]). exact H.
Qed.

Lemma bad_mode_exits_with_success_witness :
  main 0 1 2 1 0 file_present reads_host sample_backends
    ["secvarctl"; "-v"; "--mode"; "Host"; "read"] =
    ([EPrlog PR_WARNING (MUnknownMode "Host"); EUsage], Some 0) /\
  main 0 1 2 1 0 file_present reads_host sample_backends
    ["secvarctl"; "-v"; "--mode"] =
    ([EPrlog PR_WARNING MModeNeeded; EUsage], Some 0) /\
  main 0 1 2 1 0 file_present reads_host sample_backends
    ["secvarctl"; "-v"; "read"; "-m"; "host"] =
    ([EUsage], Some 0).
Proof.
  assert (Hm : is_mode_flag "--mode") by now right.
  pose proof (bad_mode_exits_with_success 0 1 2 1 0 file_present reads_host
                sample_backends "secvarctl" ["-v"] verbose_flags "--mode"
                consumes_verbose_only Hm) as (Hbad & Hnone & Hunset).
  split; [|split].
  - apply (Hbad "Host" ["read"]); discriminate.
  - exact Hnone.
  - apply (Hunset "read" ["-m"; "host"]); [reflexivity|exact read_is_no_flag].
Defined.

Lemma no_subcommand_fails_witness :
  main 0 1 2 1 0 file_present reads_host sample_backends
    ["secvarctl"; "-v"] =
    ([EPrlog PR_ERR MCommandsNotFound; EUsage], Some 1) /\
  result (main 0 1 2 1 0 file_present reads_host sample_backends
            ["secvarctl"]) <>
  result (main 0 1 2 1 0 file_present reads_host sample_backends
            ["secvarctl"; "-v"; "-m"]) /\
  result (main 0 1 2 1 0 file_present reads_host sample_backends
            ["secvarctl"; "-v"]) <>
  result (main 0 1 2 1 0 file_present reads_host sample_backends
            ["secvarctl"; "-v"; "-m"]).
Proof.
  assert (H10 : 1 <> 0) by discriminate.
  assert (Hne : ["-v"] <> []) by discriminate.
  assert (Hm : is_mode_flag "-m") by now left.
  pose proof (no_subcommand_fails 0 1 2 1 0 file_present reads_host
                sample_backends "secvarctl") as (_ & _ & Hflags & Hdistinct).
  split.
  - exact (Hflags ["-v"] verbose_flags consumes_verbose_only Hne).
  - destruct (Hdistinct H10 ["-v"] verbose_flags "-m" consumes_verbose_only
                Hm) as [H1 H2].
    split; [exact H1|exact (H2 Hne)].
Defined.

Lemma unrecognized_flag_prints_usage_witness :
  main 0 1 2 1 0 file_present reads_host sample_backends
    ["secvarctl"; "-v"; "-x"; "-m"; "host"; "read"] =
  ([EUsage], Some 0).
Proof.
  exact (unrecognized_flag_prints_usage 0 1 2 1 0 file_present reads_host
           sample_backends "secvarctl" ["-v"] verbose_flags "-x"
           ["-m"; "host"; "read"] consumes_verbose_only eq_refl
           x_is_not_recognized).
Defined.

Lemma probe_needs_a_registered_backend_witness :
  get_backend 1 0 file_present reads_host
    (registry false false sample_host_table sample_guest_table) =
    ([EIsFile secvar_format_location], None) /\
  (exists r,
      result (get_backend 1 0 file_present reads_host sample_backends) =
      Some r) /\
  In (EGetData secvar_format_location 18)
     (trace (get_backend 1 0 file_present reads_host sample_backends)).
Proof.
  pose proof (probe_needs_a_registered_backend 1 0 file_present reads_host)
    as (_ & Hempty & Hfull).
  split.
  - exact (proj2 (Hempty eq_refl)).
  - destruct (Hfull sample_backends sample_backends_not_empty)
      as (_ & Hret & Hread).
    split; [exact Hret|exact (Hread eq_refl)].
Defined.

(** ** Sample runs for the further properties *)

Lemma flag_loop_falls_through_after_accepted_flags_witness :
  trace (parse_flags 0 init_flags ["-v"; "-m"; "host"; "read"; "-x"]) = [] /\
  exists pre,
    ["-v"; "-m"; "host"; "read"; "-x"] = pre ++ ["read"; "-x"] /\
    consumes init_flags pre
      {| verbose := PR_DEBUG; secvarctl_mode := 0;
         backend_name := Some HOST_BACKEND |} /\
    (["read"; "-x"] = [] \/
     exists sub args, ["read"; "-x"] = sub :: args /\ ~ flag_token sub).
Proof.
  exact (flag_loop_falls_through_after_accepted_flags 0 init_flags
           ["-v"; "-m"; "host"; "read"; "-x"]
           {| verbose := PR_DEBUG; secvarctl_mode := 0;
              backend_name := Some HOST_BACKEND |}
           ["read"; "-x"] eq_refl).
Defined.

Lemma flag_loop_returns_only_success_witness :
  0 = 0 /\
  exit_report (trace (parse_flags 0 init_flags ["-v"; "-m"; "both"; "read"])).
Proof.
  exact (proj2 (flag_loop_returns_only_success 0 init_flags
                  ["-v"; "-m"; "both"; "read"]) 0 eq_refl).
Defined.

Lemma usage_and_help_flags_witness :
  main 0 1 2 1 0 file_present reads_host sample_backends
    ["secvarctl"; "-v"; "--usage"; "read"] = ([EUsage], Some 0) /\
  main 0 1 2 1 0 file_present reads_host sample_backends
    ["secvarctl"; "-m"; "host"; "-h"; "-m"] = ([EHelp; EUsage], Some 0).
Proof.
  split.
  - exact (proj1 (usage_and_help_flags 0 1 2 1 0 file_present reads_host
                    sample_backends "secvarctl" ["-v"] verbose_flags
                    "--usage" ["read"] consumes_verbose_only) eq_refl).
  - exact (proj2 (usage_and_help_flags 0 1 2 1 0 file_present reads_host
                    sample_backends "secvarctl" ["-m"; "host"] host_flags
                    "-h" ["-m"] consumes_mode_host) (or_intror eq_refl)).
Defined.

Lemma last_mode_flag_wins_witness :
  parse_flags 0 init_flags ["-m"; "host"; "--mode"; "guest"; "read"] =
  parse_flags 0 init_flags ["--mode"; "guest"; "read"] /\
  parse_flags 0 init_flags ["-m"; "host"; "--mode"; "guest"; "read"] =
  parse_flags 0 guest_flags ["read"].
Proof.
  exact (last_mode_flag_wins 0 init_flags init_flags ["-m"; "host"] []
           host_flags init_flags "--mode" "guest" ["read"]
           consumes_mode_host (consumes_nil init_flags) eq_refl
           (or_intror eq_refl) (or_intror eq_refl)).
Defined.

Lemma main_faults_only_on_empty_registry_witness :
  (exists rc,
      result (main 0 1 2 1 0 file_present reads_other sample_backends
                ["secvarctl"; "-m"; "guest"; "verify"]) = Some rc) /\
  main 0 1 2 1 0 file_present reads_host
    (registry false false sample_host_table sample_guest_table)
    ["secvarctl"; "-m"; "host"; "read"] =
  ([EIsFile secvar_format_location], None).
Proof.
  split.
  - exact (proj1 (main_faults_only_on_empty_registry 0 1 2 1 0 file_present
                    reads_other sample_backends eq_refl)
             (or_introl sample_backends_not_empty)
             ["secvarctl"; "-m"; "guest"; "verify"]).
  - refine (proj2 (main_faults_only_on_empty_registry 0 1 2 1 0 file_present
                     reads_host
                     (registry false false sample_host_table
                        sample_guest_table) eq_refl)
              eq_refl eq_refl "secvarctl" ["-m"; "host"] host_flags "read" []
              consumes_mode_host _ read_is_no_flag).
    discriminate.
Defined.

Lemma handler_call_anatomy_witness :
  (exists skipped,
      ["secvarctl"; "-v"; "-m"; "host"; "read"; "-f"; "db"] =
      skipped ++ ["read"; "-f"; "db"]) /\
  3 = Z.of_nat (List.length ["read"; "-f"; "db"]) /\
  exists b c sub rest,
    ["read"; "-f"; "db"] = sub :: rest /\ ~ flag_token sub /\
    In b sample_backends /\ In c (commands b) /\ "read" = cmd_name c /\
    same_upto 32 sub (cmd_name c) /\
    result (main 0 1 2 1 0 file_present reads_host sample_backends
              ["secvarctl"; "-v"; "-m"; "host"; "read"; "-f"; "db"]) =
    Some (func c 3 ["read"; "-f"; "db"]).
Proof.
  refine (handler_call_anatomy 0 1 2 1 0 file_present reads_host
            sample_backends
            ["secvarctl"; "-v"; "-m"; "host"; "read"; "-f"; "db"]
            "read" 3 ["read"; "-f"; "db"] _).
  do 4 right. left. reflexivity.
Defined.

Lemma handler_call_comes_last_witness :
  calls [EIsFile secvar_format_location;
         EGetData secvar_format_location 18;
         ELookup "ibm,edk2-compat-v1";
         EPrlog PR_NOTICE (MFoundBackend "ibm,edk2-compat-v1")] = O /\
  occurrences is_file_check
    [EPrlog PR_ERR (MUnknownCommand "write"); EUsage] = O /\
  occurrences is_file_read
    [EPrlog PR_ERR (MUnknownCommand "write"); EUsage] = O /\
  ([EPrlog PR_ERR (MUnknownCommand "write"); EUsage] = [] \/
   exists sub,
     [EPrlog PR_ERR (MUnknownCommand "write"); EUsage] =
     [EPrlog PR_ERR (MUnknownCommand sub); EUsage] /\
     result (main 0 1 2 1 0 file_present reads_host sample_backends
               ["secvarctl"; "-m"; "host"; "write"]) = Some 2).
Proof.
  exact (handler_call_comes_last 0 1 2 1 0 file_present reads_host
           sample_backends ["secvarctl"; "-m"; "host"; "write"]
           [EIsFile secvar_format_location;
            EGetData secvar_format_location 18;
            ELookup "ibm,edk2-compat-v1";
            EPrlog PR_NOTICE (MFoundBackend "ibm,edk2-compat-v1")]
           "write" 1 ["write"]
           [EPrlog PR_ERR (MUnknownCommand "write"); EUsage] eq_refl).
Defined.

Lemma exit_status_without_handler_witness :
  (0 = 0 \/ 0 = 1 \/ 0 = 2) /\
  (In EUsage
      (trace (main 0 1 2 1 0 file_absent reads_nothing host_only_backends
                ["secvarctl"; "-m"; "guest"; "read"])) \/
   0 = 0 /\
   exists m,
     In (EPrlog PR_WARNING (MModeNotEnabled m))
        (trace (main 0 1 2 1 0 file_absent reads_nothing host_only_backends
                  ["secvarctl"; "-m"; "guest"; "read"]))).
Proof.
  exact (exit_status_without_handler 0 1 2 1 0 file_absent reads_nothing
           host_only_backends ["secvarctl"; "-m"; "guest"; "read"] 0
           eq_refl eq_refl).
Defined.

Lemma probe_returns_registered_backend_witness :
  file_present secvar_format_location = 0 /\
  In sample_host sample_backends /\
  exists buff,
    reads_host secvar_format_location (longest_name sample_backends) =
    Some buff /\
    first_prefix_match sample_backends buff sample_host.
Proof.
  exact (probe_returns_registered_backend 1 0 file_present reads_host
           sample_backends sample_host eq_refl).
Defined.

Lemma probed_backend_overrides_mode_witness :
  main 0 1 2 1 0 file_present reads_host sample_backends
    ["secvarctl"; "-m"; "host"; "read"] =
  main 0 1 2 1 0 file_present reads_host sample_backends
    ["secvarctl"; "--mode"; "guest"; "read"].
Proof.
  refine (proj1 (probed_backend_overrides_mode 0 1 2 1 0 file_present
                   reads_host sample_backends "secvarctl" ["-m"; "host"]
                   ["--mode"; "guest"] host_flags guest_flags "read" []
                   [EIsFile secvar_format_location;
                    EGetData secvar_format_location 18;
                    ELookup "ibm,edk2-compat-v1";
                    EPrlog PR_NOTICE (MFoundBackend "ibm,edk2-compat-v1")]
                   sample_host consumes_mode_host consumes_mode_guest _ _
                   eq_refl read_is_no_flag eq_refl));
    discriminate.
Defined.

Lemma registry_lookup_is_unambiguous_witness :
  is_known_backend 1 0 sample_backends "ibm,plpks-sb-v1 (rev 2)" =
  ([ELookup "ibm,plpks-sb-v1 (rev 2)";
    EPrlog PR_NOTICE (MFoundBackend "ibm,plpks-sb-v1")],
   Some (1, Some sample_guest)).
Proof.
  refine (proj2 (registry_lookup_is_unambiguous 1 0) true true
            sample_host_table sample_guest_table sample_guest
            "ibm,plpks-sb-v1 (rev 2)" _ _).
  - right. left. reflexivity.
  - now exists " (rev 2)".
Defined.

Lemma fallback_follows_the_build_witness :
  main 0 1 2 1 0 file_absent reads_nothing host_only_backends
    ["secvarctl"; "-m"; "host"; "read"] =
  ([EIsFile secvar_format_location;
    EPrlog PR_WARNING MNoSecvarSupport;
    ELookup "ibm,edk2-compat-v1";
    EPrlog PR_NOTICE (MFoundBackend "ibm,edk2-compat-v1");
    EPrlog PR_WARNING (MUnsupportedBackend "ibm,edk2-compat-v1");
    ECall "read" 1 ["read"]],
   Some 7) /\
  main 0 1 2 1 0 file_absent reads_nothing host_only_backends
    ["secvarctl"; "--mode"; "guest"; "read"] =
  ([EIsFile secvar_format_location;
    EPrlog PR_WARNING MNoSecvarSupport;
    ELookup "ibm,plpks-sb-v1";
    EPrlog PR_WARNING (MModeNotEnabled "guest")],
   Some 0).
Proof.
  assert (H10 : 1 <> 0) by discriminate.
  assert (Hhost : secvarctl_mode host_flags <> -1) by discriminate.
  assert (Hguest : secvarctl_mode guest_flags <> -1) by discriminate.
  split.
  - exact (proj1 (fallback_follows_the_build 0 1 2 1 0 file_absent
                    reads_nothing true false sample_host_table
                    sample_guest_table "secvarctl" ["-m"; "host"] host_flags
                    "read" []
                    [EIsFile secvar_format_location;
                     EPrlog PR_WARNING MNoSecvarSupport]
                    H10 eq_refl consumes_mode_host Hhost read_is_no_flag
                    eq_refl) eq_refl).
  - exact (proj2 (fallback_follows_the_build 0 1 2 1 0 file_absent
                    reads_nothing true false sample_host_table
                    sample_guest_table "secvarctl" ["--mode"; "guest"]
                    guest_flags "read" []
                    [EIsFile secvar_format_location;
                     EPrlog PR_WARNING MNoSecvarSupport]
                    H10 eq_refl consumes_mode_guest Hguest read_is_no_flag
                    eq_refl) eq_refl).
Defined.

Lemma verbose_flag_raises_verbosity_witness :
  exists pre,
    ["-m"; "guest"; "--verbose"; "read"] = pre ++ ["read"] /\
    ((exists tok, In tok pre /\ is_verbose_flag tok) ->
     verbose {| verbose := PR_DEBUG; secvarctl_mode := 1;
                backend_name := Some GUEST_BACKEND |} = PR_DEBUG) /\
    ((forall tok, In tok pre -> ~ is_verbose_flag tok) ->
     verbose {| verbose := PR_DEBUG; secvarctl_mode := 1;
                backend_name := Some GUEST_BACKEND |} =
     verbose init_flags) /\
    (verbose init_flags = PR_DEBUG ->
     verbose {| verbose := PR_DEBUG; secvarctl_mode := 1;
                backend_name := Some GUEST_BACKEND |} = PR_DEBUG).
Proof.
  exact (verbose_flag_raises_verbosity 0 init_flags
           ["-m"; "guest"; "--verbose"; "read"]
           {| verbose := PR_DEBUG; secvarctl_mode := 1;
              backend_name := Some GUEST_BACKEND |}
           ["read"] eq_refl).
Defined.

Lemma mode_is_set_by_mode_flags_only_witness :
  mode_invariant verbose_flags /\
  exists pre,
    ["-v"; "read"; "-m"; "host"] = pre ++ ["read"; "-m"; "host"] /\
    (secvarctl_mode verbose_flags = -1 <->
     forall tok, In tok pre -> ~ is_mode_flag tok).
Proof.
  exact (mode_is_set_by_mode_flags_only 0 ["-v"; "read"; "-m"; "host"]
           verbose_flags ["read"; "-m"; "host"] eq_refl).
Defined.

Lemma sample_names_are_short :
  Forall (fun c => (strlen (cmd_name c) < 32)%nat) sample_host_table.
Proof. repeat constructor; cbn; lia. Qed.

Lemma dispatch_is_exact_on_short_names_witness :
  command_loop 2 sample_host_table "readx" 1 ["readx"] = ([], Some 2) /\
  command_loop 2 sample_host_table "rea" 1 ["rea"] = ([], Some 2) /\
  command_loop 2 sample_host_table "write" 1 ["write"] =
  ([ECall "write" 1 ["write"]], Some 2).
Proof.
  split; [|split].
  - exact (dispatch_is_exact_on_short_names 2 sample_host_table "readx" 1
             ["readx"] sample_names_are_short).
  - exact (dispatch_is_exact_on_short_names 2 sample_host_table "rea" 1
             ["rea"] sample_names_are_short).
  - exact (dispatch_is_exact_on_short_names 2 sample_host_table "write" 1
             ["write"] sample_names_are_short).
Defined.
